(** * Yellowgram messenger: the socket server of [src/server.js]

    A shallow embedding of the event handlers registered in
    [io.on('connection', ...)] and of the state they share: the three
    nedb collections [db.users], [db.messages], [db.groups], the presence
    object [onlineUsers] and the [username] property of every live socket.

    Modelling conventions.
    - Each handler is an [async] function, embedded in a small
      state-and-exception monad [M]. An exception (a rejected [await])
      stops the handler where it is raised and keeps the effects made
      before it. [handler] runs a handler from its first line to its
      last without another handler in between. Other handlers may run
      at every [await]: where a property depends on what the store
      holds by the time a later line runs, the lines after the [await]
      are a definition of their own ([register_user], [insert_group]),
      and the property is stated for every world they may find.
    - Every store write and every emission is appended to the trace [out]
      of the world, in program order.
    - Payload fields that a handler reads are typed as the handler uses
      them (user and group names are strings); payloads handed over whole
      ([update_profile], [chat_message]) are documents with any field
      names. Document values are JSON scalars, dates and arrays of
      strings.
    - [onlineUsers] is a plain JS object ([{}], line 38). Its own
      properties are a [gmap] from usernames to socket ids; a read of a
      name that has no own property but names a property of
      [Object.prototype] yields that inherited value, which is truthy
      and is no socket id, and an assignment to [__proto__] is taken
      by the setter of [Object.prototype] and creates no property.
    - nedb is the Document Store behind [find], [findOne], [insert] and
      [update]. A collection is the list of the documents its [_id]
      index holds, in insertion order. The [_id] that the store draws for
      the n-th document of a collection is [uid c n], a parameter;
      documents are written without the [_id] the store drew for them.
      [find] without [sort] lists its matches in [_id] order. A query
      [{field: s}] matches a field equal to [s] or an array field
      containing [s]; [update] without [multi] rewrites the first match.
      The store refuses a document with a field name that contains a dot
      or begins with a dollar sign ([checkKey]), copies documents with
      assignments, so that a field named [__proto__] is not copied,
      indexes an array-valued field under each of its elements, and
      refuses a write that would put one key twice into a unique index.
      A field name with a dot in [$set] is a path into the document; what
      the store makes of it is the parameter [set_paths]. *)

From Stdlib Require Import Ascii.
From stdpp Require Import gmap strings list fin_maps sorting pretty.

Local Open Scope Z_scope.

(** ** Documents *)

Inductive value :=
  | VNull
  | VBool (b : bool)
  | VNum (n : Z)
  | VStr (s : string)
  | VDate (t : Z)
  | VArr (l : list string).

#[global] Instance value_eq_dec : EqDecision value.
Proof. solve_decision. Defined.

Abbreviation doc := (gmap string value).

(** JS truthiness of a property read; [None] is [undefined]. *)
Definition truthy (v : option value) : bool :=
  match v with
  | None | Some VNull => false
  | Some (VBool b) => b
  | Some (VNum n) => negb (n =? 0)
  | Some (VStr s) => negb (String.eqb s "")
  | Some (VDate _) | Some (VArr _) => true
  end.

(** [socket.username] is a string or [undefined]. *)
Definition truthy_name (u : option string) : bool :=
  match u with
  | Some s => negb (String.eqb s "")
  | None => false
  end.

(** The nedb query [{k: s}] on a document. *)
Definition field_is (k s : string) (d : doc) : Prop :=
  match d !! k with
  | Some (VStr s') => s' = s
  | Some (VArr l) => s ∈ l
  | _ => False
  end.

#[global] Instance field_is_dec k s d : Decision (field_is k s d).
Proof. unfold field_is. destruct (d !! k) as [[]|]; apply _. Defined.

(** ** Field names *)

(** [k.indexOf('.') !== -1]. *)
Fixpoint has_dot (k : string) : bool :=
  match k with
  | EmptyString => false
  | String c k => if Ascii.eqb c "." then true else has_dot k
  end.

(** [k[0] === '$']. *)
Definition dollar_first (k : string) : bool :=
  match k with
  | String c _ => Ascii.eqb c "$"
  | EmptyString => false
  end.

(** The store's [checkKey]: no dot, and no leading dollar sign but for
    the four names the store uses in its data file. *)
Definition valid_key (k : string) (v : value) : bool :=
  negb (has_dot k)
  && (negb (dollar_first k)
      || match v with
         | VNum _ => bool_decide (k = "$$date")
         | VBool true => bool_decide (k = "$$deleted")
         | _ => false
         end
      || bool_decide (k = "$$indexCreated")
      || bool_decide (k = "$$indexRemoved")).

(** The store's [checkObject] on a document whose values are scalars and
    arrays of scalars. *)
Definition valid_doc (d : doc) : Prop :=
  map_Forall (λ k v, valid_key k v = true) d.

#[global] Instance valid_doc_dec d : Decision (valid_doc d).
Proof. unfold valid_doc. apply _. Defined.

(** A field name that the store takes as it is: no path, no reserved
    name, and neither of the two names with a meaning of their own. *)
Definition plain_key (k : string) : Prop :=
  has_dot k = false ∧ dollar_first k = false ∧ k ≠ "_id" ∧ k ≠ "__proto__".

#[global] Instance plain_key_dec k : Decision (plain_key k).
Proof. unfold plain_key. apply _. Defined.

Definition plain_payload (data : doc) : Prop :=
  map_Forall (λ k _, plain_key k) data.

#[global] Instance plain_payload_dec data : Decision (plain_payload data).
Proof. unfold plain_payload. apply _. Defined.

(** No field name of the payload is a path. *)
Definition no_path (data : doc) : Prop :=
  map_Forall (λ k _, has_dot k = false) data.

#[global] Instance no_path_dec data : Decision (no_path data).
Proof. unfold no_path. apply _. Defined.

(** ** Modifiers *)

(** [$addToSet] on a list. *)
Definition add_to_set (x : string) (l : list string) : list string :=
  if decide (x ∈ l) then l else l ++ [x].

(** The modifier [{ $addToSet: { k: x } }]: the array is created when the
    field is missing, and a field that is not an array is an error. *)
Definition addToSet (k x : string) (d : doc) : option doc :=
  match d !! k with
  | None => Some (<[k := VArr [x]]> d)
  | Some (VArr l) => Some (<[k := VArr (add_to_set x l)]> d)
  | Some _ => None
  end.

(** The [_id] a modifier may name: none, or the one the document has. *)
Definition same_id (id : string) (data : doc) : Prop :=
  match data !! "_id" with
  | None => True
  | Some v => v = VStr id
  end.

#[global] Instance same_id_dec id data : Decision (same_id id data).
Proof. unfold same_id. destruct (data !! "_id"); apply _. Defined.

(** ** The shared state *)

(** A socket id. *)
Abbreviation handle := nat.

(** A document of [db.groups], as line 162 builds it. *)
Record Group := mkGroup {
  name : string;
  admin : string;
  members : list string
}.

(** A document of [db.messages]: [{ ...data, from, timestamp }]. *)
Record Message := mkMessage {
  msg_data : doc;
  msg_from : string;
  msg_timestamp : Z
}.

Definition msg_doc (m : Message) : doc :=
  <["timestamp" := VDate (msg_timestamp m)]>
    (<["from" := VStr (msg_from m)]> (msg_data m)).

(** The object literal of [profile_data]. *)
Record Profile := mkProfile {
  p_username : option value;
  p_bio : value;
  p_avatar : value;
  p_email : option value
}.

Inductive emitted :=
  | auth_error (text : string)
  | auth_success (username : string)
  | update_user_list (l : list (string * bool))
  | update_group_list (gs : list Group)
  | receive_request (from : string)
  | error_msg (text : string)
  | profile_data (p : Profile)
  | new_msg (m : Message)
  | chat_history (ms : list Message).

Inductive collection := Users | Messages | Groups.

(** [Emit id e] is [socket.emit(e)] on the socket [id], or
    [io.to(id).emit(e)]. [EmitNowhere e] is [io.to(v).emit(e)] for a
    value [v] that is no socket id: no socket is in that room. *)
Inductive effect :=
  | Insert (c : collection)
  | Update (c : collection)
  | Emit (to : handle) (e : emitted)
  | EmitNowhere (e : emitted).

Record World := mkWorld {
  users : list doc;
  messages : list Message;
  groups : list Group;
  onlineUsers : gmap string handle;
  sockets : gmap handle (option string);
  out : list effect
}.

#[global] Instance Group_eq_dec : EqDecision Group.
Proof. solve_decision. Defined.
#[global] Instance Message_eq_dec : EqDecision Message.
Proof. solve_decision. Defined.
#[global] Instance Profile_eq_dec : EqDecision Profile.
Proof. solve_decision. Defined.
#[global] Instance emitted_eq_dec : EqDecision emitted.
Proof. solve_decision. Defined.
#[global] Instance collection_eq_dec : EqDecision collection.
Proof. solve_decision. Defined.
#[global] Instance effect_eq_dec : EqDecision effect.
Proof. solve_decision. Defined.
#[global] Instance World_eq_dec : EqDecision World.
Proof. solve_decision. Defined.

Definition init : World := mkWorld [] [] [] ∅ ∅ [].

Definition with_users (f : list doc → list doc) (w : World) : World :=
  mkWorld (f (users w)) (messages w) (groups w) (onlineUsers w) (sockets w) (out w).
Definition with_messages (f : list Message → list Message) (w : World) : World :=
  mkWorld (users w) (f (messages w)) (groups w) (onlineUsers w) (sockets w) (out w).
Definition with_groups (f : list Group → list Group) (w : World) : World :=
  mkWorld (users w) (messages w) (f (groups w)) (onlineUsers w) (sockets w) (out w).
Definition with_online (f : gmap string handle → gmap string handle) (w : World) : World :=
  mkWorld (users w) (messages w) (groups w) (f (onlineUsers w)) (sockets w) (out w).
Definition with_sockets (f : gmap handle (option string) → gmap handle (option string))
    (w : World) : World :=
  mkWorld (users w) (messages w) (groups w) (onlineUsers w) (f (sockets w)) (out w).
Definition log (e : effect) (w : World) : World :=
  mkWorld (users w) (messages w) (groups w) (onlineUsers w) (sockets w) (out w ++ [e]).

(** ** The presence object *)

(** The property names of [Object.prototype]. *)
Definition object_prototype_names : list string :=
  ["constructor"; "__defineGetter__"; "__defineSetter__"; "hasOwnProperty";
   "__lookupGetter__"; "__lookupSetter__"; "isPrototypeOf";
   "propertyIsEnumerable"; "toString"; "valueOf"; "__proto__";
   "toLocaleString"].

(** What a read of [onlineUsers[k]] yields when it is not [undefined]:
    the socket id stored under [k], or the value [Object.prototype] has
    under that name. *)
Inductive registry_value :=
  | socket_id (id : handle)
  | inherited.

#[global] Instance registry_value_eq_dec : EqDecision registry_value.
Proof. solve_decision. Defined.

(** [onlineUsers[k]]. *)
Definition online_get (online : gmap string handle) (k : string) :
    option registry_value :=
  match online !! k with
  | Some id => Some (socket_id id)
  | None => if decide (k ∈ object_prototype_names) then Some inherited else None
  end.

(** [onlineUsers[k] = id]. *)
Definition online_set (k : string) (id : handle) (online : gmap string handle) :
    gmap string handle :=
  if decide (k = "__proto__") then online else <[k := id]> online.

(** What [io.to(v).emit(e)] does for the value [v] read from
    [onlineUsers]. *)
Definition push (v : registry_value) (e : emitted) : effect :=
  match v with
  | socket_id id => Emit id e
  | inherited => EmitNowhere e
  end.

(** ** The handler monad *)

Definition M (A : Type) : Type := World → option A * World.

#[global] Instance M_ret : MRet M := λ A x w, (Some x, w).
#[global] Instance M_bind : MBind M := λ A B f m w,
  match m w with
  | (Some x, w') => f x w'
  | (None, w') => (None, w')
  end.

Definition throw {A} : M A := λ w, (None, w).
Definition gets {A} (f : World → A) : M A := λ w, (Some (f w), w).
Definition modify (f : World → World) : M unit := λ w, (Some (), f w).

(** [try { m } catch (err) { h }]. *)
Definition try_catch {A} (m : M A) (h : M A) : M A := λ w,
  match m w with
  | (Some x, w') => (Some x, w')
  | (None, w') => h w'
  end.

(** A call of an async function that is not awaited: a rejection inside
    it does not reach the caller. *)
Definition detached (m : M unit) : M unit := λ w, (Some (), (m w).2).

Definition exec (m : M unit) (w : World) : World := (m w).2.

(** What [m] appended to the trace. *)
Definition emitted_by (m : M unit) (w : World) : list effect :=
  drop (length (out w)) (out (exec m w)).

(** [socket.emit(...)] and [io.to(id).emit(...)]. *)
Definition emit (to : handle) (e : emitted) : M unit := modify (log (Emit to e)).

(** [io.to(v).emit(...)] for a value read from [onlineUsers]. *)
Definition emit_to (v : registry_value) (e : emitted) : M unit :=
  modify (log (push v e)).

(** [socket.username]. *)
Definition socket_username (s : handle) : M (option string) :=
  gets (λ w, mjoin (sockets w !! s)).

(** ** The Document Store *)

Definition find_user (u : string) (l : list doc) : option (nat * doc) :=
  list_find (field_is "username" u) l.

Definition find_group (n : string) (l : list Group) : option (nat * Group) :=
  list_find (λ g, name g = n) l.

Arguments find_user : simpl never.
Arguments find_group : simpl never.

(** The keys under which an index holds a document whose indexed field
    is [v]: the value itself, [undefined] included, or each element of
    an array, once. *)
Definition index_keys (v : option value) : list (option value) :=
  match v with
  | Some (VArr l) => (λ s, Some (VStr s)) <$> remove_dups l
  | v => [v]
  end.

(** The keys of the unique index on [username] (line 22). *)
Definition username_keys (l : list doc) : list (option value) :=
  l ≫= λ d, index_keys (d !! "username").

(** One of the keys [ks] is in the index already. *)
Definition username_taken (ks : list (option value)) (l : list doc) : Prop :=
  Exists (λ k, k ∈ username_keys l) ks.

#[global] Instance username_taken_dec ks l : Decision (username_taken ks l).
Proof. unfold username_taken. apply _. Defined.

(** The keys that replacing [d] by [d'] adds to the index. *)
Definition new_keys (d d' : doc) : list (option value) :=
  filter (λ k, k ∉ index_keys (d !! "username")) (index_keys (d' !! "username")).

(** [db.users.findOne({ username: u })]. *)
Definition users_findOne (u : string) : M (option doc) :=
  gets (λ w, snd <$> find_user u (users w)).

(** [db.users.insert(d)], for a document with valid field names. *)
Definition users_insert (d : doc) : M doc := λ w,
  if decide (username_taken (index_keys (d !! "username")) (users w)) then (None, w)
  else (Some d, log (Insert Users) (with_users (λ l, l ++ [d]) w)).

(** [db.users.update({ username: u }, modifier)]; the modifier is given
    the position of the document it is applied to. *)
Definition users_update (u : string) (modifier : nat → doc → option doc) : M unit := λ w,
  match find_user u (users w) with
  | None => (Some (), w)
  | Some (i, d) =>
      match modifier i d with
      | None => (None, w)
      | Some d' =>
          if decide (username_taken (new_keys d d') (users w)) then (None, w)
          else (Some (), log (Update Users) (with_users (λ l, <[i := d']> l) w))
      end
  end.

(** [.sort({ timestamp: 1 })]. *)
Definition by_timestamp (a b : Message) : Prop := msg_timestamp a ≤ msg_timestamp b.

#[global] Instance by_timestamp_dec a b : Decision (by_timestamp a b).
Proof. unfold by_timestamp. apply _. Defined.

(** [db.messages.find(query).sort({ timestamp: 1 })]. *)
Definition messages_find_sorted (query : doc → Prop) `{∀ d, Decision (query d)} :
    M (list Message) :=
  gets (λ w, merge_sort by_timestamp (filter (λ m, query (msg_doc m)) (messages w))).

(** [db.groups.findOne({ name: n })]. *)
Definition groups_findOne (n : string) : M (option Group) :=
  gets (λ w, snd <$> find_group n (groups w)).

(** [db.groups.insert(g)]. *)
Definition groups_insert (g : Group) : M unit :=
  modify (λ w, log (Insert Groups) (with_groups (λ l, l ++ [g]) w)).

(** [db.groups.update({ name: n }, { $addToSet: { members: x } })]. *)
Definition groups_add_member (n x : string) : M unit := λ w,
  match find_group n (groups w) with
  | None => (Some (), w)
  | Some (i, g) =>
      (Some (), log (Update Groups)
         (with_groups (λ l, <[i := mkGroup (name g) (admin g) (add_to_set x (members g))]> l) w))
  end.

(** The copy of a document that the store keeps: the fields are assigned
    one by one to a new object, and the assignment to [__proto__] makes
    no field. *)
Definition stored_copy (m : Message) : Message :=
  mkMessage (delete "__proto__" (msg_data m)) (msg_from m) (msg_timestamp m).

(** The keys under which the [_id] index holds a document with [_id] [v]. *)
Definition id_keys (v : value) : list value :=
  match v with
  | VArr l => VStr <$> remove_dups l
  | v => [v]
  end.

(** ** The handlers *)

(** The texts the server sends. *)
Definition text_username_taken : string := "اسم المستخدم هذا مأخوذ بالفعل".
Definition text_register_failed : string := "حدث خطأ أثناء التسجيل، ربما الاسم مستخدم بالفعل".
Definition text_bad_credentials : string := "خطأ في اسم المستخدم أو كلمة المرور".
Definition text_no_such_user : string := "المستخدم غير موجود في النظام".
Definition text_cannot_add_self : string := "لا يمكنك إضافة نفسك".
Definition text_not_connected : string := "المستخدم غير متصل حالياً لإرسال الطلب".
Definition text_name_reserved : string := "الاسم محجوز".
Definition text_no_bio : string := "لا يوجد وصف".
Definition default_avatar : string := "/uploads/default-avatar.png".

(** The payload of [authenticate]. *)
Record Credentials := mkCredentials {
  username : string;
  password : string;
  email : option string;
  isRegistering : bool
}.

(** The payload of [chat_message]: an object whose [to] is a name. *)
Record ChatData := mkChatData {
  to : string;
  fields : doc
}.

Definition chat_doc (data : ChatData) : doc := <["to" := VStr (to data)]> (fields data).

(** [a || b] on property reads. *)
Definition or_else (v : option value) (d : value) : value :=
  if truthy v then default d v else d.

(** The guard [if (!socket.username) return;]. *)
Definition when_named (s : handle) (k : string → M unit) : M unit :=
  u ← socket_username s;
  match u with
  | Some u => if String.eqb u "" then mret () else k u
  | None => mret ()
  end.

(** The snapshot [broadcastUserList] sends for the friends [l]:
    [{ username: f, isOnline: !!onlineUsers[f] }]. *)
Definition presence_of (online : gmap string handle) (l : list string) :
    list (string * bool) :=
  (λ f, (f, bool_decide (is_Some (online_get online f)))) <$> l.

(** Lines 41-48. *)
Definition broadcastUserList (s : handle) : M unit :=
  when_named s (λ me,
    user ← users_findOne me;
    match user with
    | None => mret ()
    | Some user =>
        friends ← (if truthy (user !! "friends")
                   then match user !! "friends" with
                        | Some (VArr l) => mret l
                        | _ => throw
                        end
                   else mret []);
        online ← gets onlineUsers;
        emit s (update_user_list (presence_of online friends))
    end).

(** The [$or] of line 175 for a direct conversation. *)
Definition direct_query (me other : string) (d : doc) : Prop :=
  (field_is "from" me d ∧ field_is "to" other d)
  ∨ (field_is "from" other d ∧ field_is "to" me d).

#[global] Instance direct_query_dec me other d : Decision (direct_query me other d).
Proof. unfold direct_query. apply _. Defined.

(** The query of line 175. *)
Definition history_query (me other : string) (isGroup : bool) (d : doc) : Prop :=
  if isGroup then field_is "toGroup" other d else direct_query me other d.

#[global] Instance history_query_dec me other isGroup d :
  Decision (history_query me other isGroup d).
Proof. unfold history_query. destruct isGroup; apply _. Defined.

Section Server.

(** The Credential Verifier: [bcrypt.hash(password, 10)] and
    [bcrypt.compare(password, digest)] on strings. *)
Variable bcrypt_hash : string → string.
Variable bcrypt_compare : string → string → bool.

(** The [_id] the store draws for the [n]-th document of a collection. *)
Variable uid : collection → nat → string.

(** What the store's [$set] returns for a payload with a path among its
    field names, applied to a document; [None] when it throws. *)
Variable set_paths : doc → doc → option doc.

(** The modifier [{ $set: data }] on the [i]-th user document. The
    fields are assigned one by one, the result is checked with
    [checkObject], and the [_id] must be the one the document had. *)
Definition set_fields (data : doc) (i : nat) (d : doc) : option doc :=
  if decide (no_path data) then
    let data := delete "__proto__" data in
    if decide (valid_doc data ∧ same_id (uid Users i) data)
    then Some (delete "_id" data ∪ d)
    else None
  else set_paths data d.

(** The [_id] of the [i]-th message: the one its payload brought, or the
    one the store drew. *)
Definition message_id (i : nat) (m : Message) : value :=
  default (VStr (uid Messages i)) (msg_doc m !! "_id").

(** The keys of the [_id] index of [db.messages]. *)
Definition message_ids (ms : list Message) : list value :=
  concat (imap (λ i m, id_keys (message_id i m)) ms).

(** The store takes the document: its field names are valid, and the
    [_id] it brings, if any, is not in the index. *)
Definition messages_accept (ms : list Message) (m : Message) : Prop :=
  valid_doc (msg_doc m)
  ∧ match msg_doc m !! "_id" with
    | None => True
    | Some v => Forall (λ k, k ∉ message_ids ms) (id_keys v)
    end.

#[global] Instance messages_accept_dec ms m : Decision (messages_accept ms m).
Proof. unfold messages_accept. destruct (msg_doc m !! "_id"); apply _. Defined.

(** How often the [_id] index lists the document: once, or once for each
    element of an array-valued [_id] that the payload brought. *)
Definition listings (m : Message) : nat :=
  match msg_doc m !! "_id" with
  | None => 1
  | Some v => length (id_keys v)
  end.

(** [db.messages.insert(msg)]. *)
Definition messages_insert (m : Message) : M unit := λ w,
  let m' := stored_copy m in
  if decide (messages_accept (messages w) m')
  then (Some (), log (Insert Messages)
                   (with_messages (λ l, l ++ replicate (listings m') m') w))
  else (None, w).

(** The order of the [_id] index of [db.groups] on numbered documents. *)
Definition id_le (a b : nat * Group) : Prop :=
  String.leb (uid Groups a.1) (uid Groups b.1) = true.

#[global] Instance id_le_dec a b : Decision (id_le a b).
Proof. unfold id_le. apply _. Defined.

(** The groups of [l] that have [u] among their members, in [_id] order:
    the documents are numbered, filtered and sorted by their ids. *)
Definition member_groups (u : string) (l : list Group) : list Group :=
  (merge_sort id_le
     (filter (λ ig : nat * Group, u ∈ members ig.2) (zip (seq 0 (length l)) l))).*2.

(** [db.groups.find({ members: u })]. *)
Definition groups_find_member (u : string) : M (list Group) :=
  gets (λ w, member_groups u (groups w)).

(** The document of lines 74-81. *)
Definition new_user (c : Credentials) : doc :=
  <["username" := VStr (username c)]>
  (<["password" := VStr (bcrypt_hash (password c))]>
  (<["email" := VStr (default "" (email c))]>
  (<["avatar" := VStr default_avatar]>
  (<["bio" := VStr ""]>
  (<["friends" := VArr []]> ∅))))).

(** Lines 91-96. *)
Definition bind_connection (s : handle) (u : string) : M unit :=
  modify (with_sockets (λ m, <[s := Some u]> m));;
  modify (with_online (online_set u s));;
  emit s (auth_success u);;
  detached (broadcastUserList s);;
  gs ← groups_find_member u;
  emit s (update_group_list gs).

(** Lines 72-96: what [authenticate] does once the lookup of line 64 has
    found no user of that name. *)
Definition register_user (s : handle) (c : Credentials) : M unit :=
  created ← try_catch
    (_ ← users_insert (new_user c); mret true)
    (emit s (auth_error text_register_failed);; mret false);
  if created : bool then bind_connection s (username c) else mret ().

(** Lines 63-97. *)
Definition authenticate (s : handle) (c : Credentials) : M unit :=
  user ← users_findOne (username c);
  if isRegistering c then
    match user with
    | Some _ => emit s (auth_error text_username_taken)
    | None => register_user s c
    end
  else
    match user with
    | None => emit s (auth_error text_bad_credentials)
    | Some user =>
        ok ← match user !! "password" with
             | Some (VStr digest) => mret (bcrypt_compare (password c) digest)
             | _ => throw
             end;
        if ok : bool then bind_connection s (username c)
        else emit s (auth_error text_bad_credentials)
    end.

(** Lines 100-113. *)
Definition send_request (s : handle) (targetName : string) : M unit :=
  when_named s (λ me,
    targetUser ← users_findOne targetName;
    match targetUser with
    | None => emit s (error_msg text_no_such_user)
    | Some targetUser =>
        if decide (targetUser !! "username" = Some (VStr me))
        then emit s (error_msg text_cannot_add_self)
        else
          targetSocketId ← gets (λ w, online_get (onlineUsers w) targetName);
          match targetSocketId with
          | Some v => emit_to v (receive_request me)
          | None => emit s (error_msg text_not_connected)
          end
    end).

(** Lines 115-128; [io.sockets.sockets.get(v)] is [undefined] for a
    value that is no socket id. *)
Definition accept_request (s : handle) (from : string) : M unit :=
  when_named s (λ me,
    users_update me (λ _, addToSet "friends" from);;
    users_update from (λ _, addToSet "friends" me);;
    detached (broadcastUserList s);;
    other ← gets (λ w, online_get (onlineUsers w) from);
    match other with
    | Some (socket_id id) =>
        otherSocket ← gets (λ w, sockets w !! id);
        match otherSocket with
        | Some _ => detached (broadcastUserList id)
        | None => mret ()
        end
    | _ => mret ()
    end).

(** Lines 131-137. *)
Definition get_profile (s : handle) (target : string) : M unit :=
  u ← users_findOne target;
  match u with
  | None => mret ()
  | Some u =>
      emit s (profile_data
        (mkProfile (u !! "username")
                   (or_else (u !! "bio") (VStr text_no_bio))
                   (or_else (u !! "avatar") (VStr default_avatar))
                   (u !! "email")))
  end.

(** Lines 139-141. *)
Definition update_profile (s : handle) (data : doc) : M unit :=
  when_named s (λ me, users_update me (set_fields data)).

(** Line 151 and line 153: [onlineUsers[m] && io.to(onlineUsers[m]).emit(...)]. *)
Definition push_if_online (online : gmap string handle) (m : string) (e : emitted) :
    M unit :=
  match online_get online m with
  | Some v => emit_to v e
  | None => mret ()
  end.

(** Lines 144-156; [now] is the value of [new Date()]. *)
Definition chat_message (s : handle) (data : ChatData) (now : Z) : M unit :=
  when_named s (λ me,
    let msg := mkMessage (chat_doc data) me now in
    messages_insert msg;;
    online ← gets onlineUsers;
    if truthy (chat_doc data !! "isGroup") then
      group ← groups_findOne (to data);
      match group with
      | None => mret ()
      | Some group =>
          mapM (λ m, push_if_online online m (new_msg msg)) (members group);;
          mret ()
      end
    else
      push_if_online online (to data) (new_msg msg);;
      emit s (new_msg msg)).

(** Lines 162-163: what [create_group] does once the lookup of line 161
    has found no group of that name. *)
Definition insert_group (s : handle) (me n : string) : M unit :=
  groups_insert (mkGroup n me [me]);;
  gs ← groups_find_member me;
  emit s (update_group_list gs).

(** Lines 159-164. *)
Definition create_group (s : handle) (n : string) : M unit :=
  when_named s (λ me,
    existing ← groups_findOne n;
    match existing with
    | Some _ => emit s (auth_error text_name_reserved)
    | None => insert_group s me n
    end).

(** Lines 166-171. *)
Definition add_member (s : handle) (groupName userToAdd : string) : M unit :=
  gp ← groups_findOne groupName;
  me ← socket_username s;
  if decide (admin <$> gp ≠ me) then mret ()
  else
    groups_add_member groupName userToAdd;;
    target ← gets (λ w, online_get (onlineUsers w) userToAdd);
    match target with
    | Some v => gs ← groups_find_member userToAdd; emit_to v (update_group_list gs)
    | None => mret ()
    end.

(** Lines 173-177. *)
Definition get_history (s : handle) (other : string) (isGroup : bool) : M unit :=
  when_named s (λ me,
    ms ← messages_find_sorted (history_query me other isGroup);
    emit s (chat_history ms)).

(** Lines 179-183. *)
Definition disconnect (s : handle) : M unit :=
  when_named s (λ me, modify (with_online (λ m, delete me m))).

(** ** Events *)

Inductive event :=
  | on_connection (s : handle)
  | on_authenticate (s : handle) (c : Credentials)
  | on_send_request (s : handle) (targetName : string)
  | on_accept_request (s : handle) (from : string)
  | on_get_profile (s : handle) (target : string)
  | on_update_profile (s : handle) (data : doc)
  | on_chat_message (s : handle) (data : ChatData) (now : Z)
  | on_create_group (s : handle) (n : string)
  | on_add_member (s : handle) (groupName userToAdd : string)
  | on_get_history (s : handle) (other : string) (isGroup : bool)
  | on_disconnect (s : handle).

Definition socket_of (ev : event) : handle :=
  match ev with
  | on_connection s | on_authenticate s _ | on_send_request s _
  | on_accept_request s _ | on_get_profile s _ | on_update_profile s _
  | on_chat_message s _ _ | on_create_group s _ | on_add_member s _ _
  | on_get_history s _ _ | on_disconnect s => s
  end.

(** A new socket has no [username]; a closed socket leaves
    [io.sockets.sockets] once its [disconnect] handler has run. *)
Definition handler (ev : event) : M unit :=
  match ev with
  | on_connection s => modify (with_sockets (λ m, <[s := None]> m))
  | on_authenticate s c => authenticate s c
  | on_send_request s t => send_request s t
  | on_accept_request s f => accept_request s f
  | on_get_profile s t => get_profile s t
  | on_update_profile s data => update_profile s data
  | on_chat_message s data now => chat_message s data now
  | on_create_group s n => create_group s n
  | on_add_member s g u => add_member s g u
  | on_get_history s o b => get_history s o b
  | on_disconnect s => disconnect s;; modify (with_sockets (λ m, delete s m))
  end.

Definition step (ev : event) (w : World) : World := exec (handler ev) w.

(** A socket id is fresh when it connects, and only live sockets
    receive events. *)
Definition enabled (ev : event) (w : World) : Prop :=
  match ev with
  | on_connection s => sockets w !! s = None
  | _ => is_Some (sockets w !! socket_of ev)
  end.

#[global] Instance enabled_dec ev w : Decision (enabled ev w).
Proof. destruct ev; apply _. Defined.

Definition run (evs : list event) (w : World) : World :=
  foldl (λ w ev, step ev w) w evs.

Inductive reachable : World → Prop :=
  | reachable_init : reachable init
  | reachable_step w ev : reachable w → enabled ev w → reachable (step ev w).

(** Every event of [evs] is enabled when its turn comes. *)
Fixpoint enabled_run (evs : list event) (w : World) : Prop :=
  match evs with
  | [] => True
  | ev :: evs => enabled ev w ∧ enabled_run evs (step ev w)
  end.

#[global] Instance enabled_run_dec evs w : Decision (enabled_run evs w).
Proof. revert w. induction evs as [|ev evs IH]; intros w; simpl; apply _. Defined.

End Server.

(** ** Derived notions used by the properties *)

(** The connection [s] is bound to the name [u]. *)
Definition bound (w : World) (s : handle) (u : string) : Prop :=
  mjoin (sockets w !! s) = Some u.

#[global] Instance bound_dec w s u : Decision (bound w s u).
Proof. unfold bound. apply _. Defined.

(** The friends list of a user document. *)
Definition friends_of (d : doc) : list string :=
  match d !! "friends" with
  | Some (VArr l) => l
  | _ => []
  end.

(** The field [k] of the [i]-th user document. *)
Definition user_field (l : list doc) (i : nat) (k : string) : option value :=
  d ← l !! i; d !! k.

(** [$addToSet] applies to the friends field of [d]. *)
Definition friends_ok (d : doc) : Prop :=
  match d !! "friends" with
  | None | Some (VArr _) => True
  | Some _ => False
  end.

#[global] Instance friends_ok_dec d : Decision (friends_ok d).
Proof. unfold friends_ok. destruct (d !! "friends") as [[]|]; apply _. Defined.

(** A read of [a]'s record finds [b] among its friends. *)
Definition has_friend (a b : string) (l : list doc) : Prop :=
  ∃ i d, find_user a l = Some (i, d) ∧ b ∈ friends_of d.

(** A group keeps its place, name and admin and loses no member. *)
Definition groups_grow (l l' : list Group) : Prop :=
  ∀ i g, l !! i = Some g →
    ∃ g', l' !! i = Some g' ∧ name g' = name g ∧ admin g' = admin g
          ∧ members g ⊆ members g'.

Definition admin_is_member (g : Group) : Prop := admin g ∈ members g.

(** A relation between the world before and after a computation holds
    whatever the computation returns or throws. *)
Definition stable {A} (R : relation World) (m : M A) : Prop :=
  ∀ w, R w (m w).2.

(** The world [w] after the effects [l] were appended to its trace. *)
Definition emitting (w : World) (l : list effect) : World :=
  mkWorld (users w) (messages w) (groups w) (onlineUsers w) (sockets w) (out w ++ l).

(** What the reads of [onlineUsers] yield for the members of a group. *)
Definition online_members (online : gmap string handle) (ms : list string) :
    list registry_value :=
  omap (online_get online) ms.

(** A payload of [update_profile] with plain field names that names
    neither the username nor the friends list. *)
Definition keeps_friends (data : doc) : Prop :=
  plain_payload data ∧ data !! "username" = None ∧ data !! "friends" = None.

#[global] Instance keeps_friends_dec data : Decision (keeps_friends data).
Proof. unfold keeps_friends. apply _. Defined.

(** Every [update_profile] payload among the events satisfies [P]. *)
Definition payloads_satisfy (P : doc → Prop) (ev : event) : Prop :=
  match ev with
  | on_update_profile _ data => P data
  | _ => True
  end.

(** The groups relation kept by every handler. *)
Definition groups_kept (w w' : World) : Prop :=
  groups_grow (groups w) (groups w')
  ∧ (Forall admin_is_member (groups w) → Forall admin_is_member (groups w')).

(** The users relation kept by every handler that does not overwrite
    names or friends lists. *)
Definition friends_kept (w w' : World) : Prop :=
  ∀ a b, has_friend a b (users w) → has_friend a b (users w').

(** ** The upload route *)

(** What multer knows of the uploaded file. *)
Record UploadedFile := mkUploadedFile {
  originalname : string;
  mimetype : string
}.

(** Line 31: [Date.now() + '-' + file.originalname]; [now] is the clock
    in milliseconds. *)
Definition stored_filename (now : N) (file : UploadedFile) : string :=
  pretty now +:+ "-" +:+ originalname file.

(** The two answers of the route: status 400 with [{success: false}], or
    the JSON object of lines 52-57. *)
Inductive UploadResponse :=
  | upload_refused
  | upload_done (filePath avatarPath fileType : string).

(** Lines 50-58, behind [upload.single('file')] with the disk storage of
    lines 25-32: [file] is the part named [file] of the request, if any. *)
Definition upload (now : N) (file : option UploadedFile) : UploadResponse :=
  match file with
  | None => upload_refused
  | Some f =>
      upload_done ("/uploads/" +:+ stored_filename now f)
                  ("/uploads/" +:+ stored_filename now f)
                  (mimetype f)
  end.

(** No character of [s] is a dash. *)
Fixpoint no_dash (s : string) : Prop :=
  match s with
  | EmptyString => True
  | String c s => c ≠ "-"%char ∧ no_dash s
  end.

(** ** Relations kept by every event *)

Definition keys_unique (w w' : World) : Prop :=
  NoDup (username_keys (users w)) → NoDup (username_keys (users w')).

(** No user document is removed. *)
Definition users_persist (w w' : World) : Prop :=
  (length (users w) ≤ length (users w'))%nat.

(** Every user document keeps its place and all its fields but the
    friends list, which loses no name. *)
Definition users_keep (w w' : World) : Prop :=
  ∀ i d, users w !! i = Some d →
    ∃ d', users w' !! i = Some d'
      ∧ (∀ k, k ≠ "friends" → d' !! k = d !! k)
      ∧ friends_of d ⊆ friends_of d'.

Definition messages_grow (w w' : World) : Prop :=
  messages w `prefix_of` messages w'.

Definition messages_same (w w' : World) : Prop :=
  messages w' = messages w.

Definition is_chat_message (ev : event) : Prop :=
  match ev with
  | on_chat_message _ _ _ => True
  | _ => False
  end.

Definition is_update_profile (ev : event) : Prop :=
  match ev with
  | on_update_profile _ _ => True
  | _ => False
  end.

(** No group is removed or renamed. *)
Definition group_names_grow (w w' : World) : Prop :=
  (name <$> groups w) `prefix_of` (name <$> groups w').

(** A group whose member list is a set and whose admin has a name. *)
Definition group_ok (g : Group) : Prop :=
  NoDup (members g) ∧ admin g ≠ "".

Definition groups_ok_kept (w w' : World) : Prop :=
  Forall group_ok (groups w) → Forall group_ok (groups w').

(** ** Scenarios *)

Module Scenario.

(** A Credential Verifier for the examples: the digest is the password. *)
Definition hash (p : string) : string := p.
Definition compare (p digest : string) : bool := String.eqb p digest.

(** Ids for the examples: later documents get smaller ids, so that the
    [_id] order is not the insertion order. *)
Definition uid (c : collection) (n : nat) : string := pretty (1000 - n)%nat.

(** The examples have no path among their field names. *)
Definition set_paths (data d : doc) : option doc := None.

Definition go (evs : list event) : World := run hash compare uid set_paths evs init.

Definition register (u : string) : Credentials := mkCredentials u "secret" None true.
Definition login (u : string) : Credentials := mkCredentials u "secret" None false.

(** alice registers on socket 1. *)
Definition alice_online : World :=
  go [on_connection 1%nat; on_authenticate 1%nat (register "alice")].

(** alice also logs in on socket 2, then socket 1 closes. *)
Definition alice_stale : World :=
  go [on_connection 1%nat; on_authenticate 1%nat (register "alice");
      on_connection 2%nat; on_authenticate 2%nat (login "alice");
      on_disconnect 1%nat].

(** The same with the empty username. *)
Definition empty_name_twice : World :=
  go [on_connection 1%nat; on_authenticate 1%nat (register "");
      on_connection 2%nat; on_authenticate 2%nat (login "");
      on_disconnect 1%nat].

(** alice creates the group "team"; bob registers on socket 2. *)
Definition team : World :=
  go [on_connection 1%nat; on_authenticate 1%nat (register "alice");
      on_connection 2%nat; on_authenticate 2%nat (register "bob");
      on_create_group 1%nat "team"].

Definition hi_team : ChatData :=
  mkChatData "team" (<["isGroup" := VBool true]> (<["body" := VStr "hi"]> ∅)).

Definition hi_bob : ChatData := mkChatData "bob" (<["body" := VStr "hi"]> ∅).

(** alice then writes to the group. *)
Definition team_chat : World :=
  go [on_connection 1%nat; on_authenticate 1%nat (register "alice");
      on_connection 2%nat; on_authenticate 2%nat (register "bob");
      on_create_group 1%nat "team";
      on_chat_message 1%nat hi_team 1700000000000].

End Scenario.

(** * Properties *)

Lemma world_eta w :
  mkWorld (users w) (messages w) (groups w) (onlineUsers w) (sockets w) (out w) = w.
Proof. by destruct w. Qed.

Ltac unfold_M :=
  unfold when_named, socket_username, emit, emit_to, gets, modify, throw,
    detached, try_catch, mbind, M_bind, mret, M_ret in *.

Lemma emitted_by_unchanged m w : exec m w = w → emitted_by m w = [].
Proof. unfold emitted_by. intros ->. apply drop_all. Qed.

Lemma emitted_by_app m w l : out (exec m w) = out w ++ l → emitted_by m w = l.
Proof. unfold emitted_by. intros ->. apply drop_app_length. Qed.

Lemma bind_run {A B} (m : M A) (f : A → M B) w :
  (m ≫= f) w = match m w with
               | (Some x, w') => f x w'
               | (None, w') => (None, w')
               end.
Proof. done. Qed.

Lemma when_named_bound w s u (k : string → M unit) :
  bound w s u → u ≠ "" → when_named s k w = k u w.
Proof.
  intros Hb Hu. unfold when_named. unfold_M. cbn. rewrite Hb.
  destruct (String.eqb_spec u ""); done.
Qed.

Lemma when_named_cases w s (k : string → M unit) :
  when_named s k w = (Some (), w)
  ∨ ∃ u, bound w s u ∧ u ≠ "" ∧ when_named s k w = k u w.
Proof.
  unfold when_named, bound. unfold_M. cbn.
  destruct (mjoin (sockets w !! s)) as [u|]; [|by left].
  destruct (String.eqb_spec u ""); [by left|right; eauto].
Qed.

Lemma when_named_unnamed w s (k : string → M unit) :
  truthy_name (mjoin (sockets w !! s)) = false →
  when_named s k w = (Some (), w).
Proof.
  intros Hn. unfold when_named. unfold_M. cbn.
  destruct (mjoin (sockets w !! s)) as [u|]; [|done].
  cbn in Hn. by destruct (String.eqb u "").
Qed.

Lemma emitting_nil w : emitting w [] = w.
Proof. unfold emitting. rewrite app_nil_r. apply world_eta. Qed.

Lemma emitting_app w l k : emitting (emitting w l) k = emitting w (l ++ k).
Proof. unfold emitting; cbn. by rewrite app_assoc. Qed.

Lemma log_emitting e w : log e w = emitting w [e].
Proof. done. Qed.

(** ** The presence object *)

Lemma online_get_entry online k id :
  online !! k = Some id → online_get online k = Some (socket_id id).
Proof. unfold online_get. by intros ->. Qed.

Lemma online_get_None online k :
  online_get online k = None ↔ online !! k = None ∧ k ∉ object_prototype_names.
Proof.
  unfold online_get. destruct (online !! k) as [id|].
  - split; [done|by intros [? _]].
  - destruct (decide _) as [Hin|Hout]; (split; [done|]); by intros [_ ?].
Qed.

Lemma online_get_inherited online k :
  online_get online k = Some inherited
  ↔ online !! k = None ∧ k ∈ object_prototype_names.
Proof.
  unfold online_get. destruct (online !! k) as [id|].
  - split; [done|by intros [? _]].
  - destruct (decide _) as [Hin|Hout]; (split; [done|]); by intros [_ ?].
Qed.

Lemma online_get_is_Some online k :
  is_Some (online_get online k)
  ↔ is_Some (online !! k) ∨ k ∈ object_prototype_names.
Proof.
  unfold online_get. destruct (online !! k) as [id|].
  - split; [by left|done].
  - destruct (decide _) as [Hin|Hout].
    + split; [by right|done].
    + split; [by intros [? [=]]|]. intros [[? [=]]|?]. done.
Qed.

Lemma online_set_eq k id online :
  k ≠ "__proto__" → online_set k id online !! k = Some id.
Proof. intros Hk. unfold online_set. by rewrite decide_False, lookup_insert_eq. Qed.

Lemma online_set_ne k k' id online :
  k' ≠ k → online_set k id online !! k' = online !! k'.
Proof.
  intros Hk. unfold online_set. destruct (decide _); [done|].
  by rewrite lookup_insert_ne.
Qed.

Lemma online_set_proto id online : online_set "__proto__" id online = online.
Proof. done. Qed.

(** ** The unique index *)

Lemma NoDup_index_keys v : NoDup (index_keys v).
Proof.
  destruct v as [[| | | | |l]|]; try apply NoDup_singleton.
  cbn. apply NoDup_fmap_2; [by intros ?? [=]|apply NoDup_remove_dups].
Qed.

(** A record is listed under the key of the string [u] when it answers
    the query for [u]. *)
Lemma key_of_name u d :
  Some (VStr u) ∈ index_keys (d !! "username") ↔ field_is "username" u d.
Proof.
  unfold field_is. destruct (d !! "username") as [[| | |s| |l]|]; cbn;
    rewrite ?list_elem_of_singleton; try (split; [by intros [=]|done]).
  - split; [by intros [= ->]|by intros ->].
  - rewrite list_elem_of_fmap. setoid_rewrite elem_of_remove_dups.
    split; [by intros (s & [= ->] & Hs)|intros Hu; by exists u].
Qed.

Lemma username_keys_elem k l :
  k ∈ username_keys l ↔ ∃ d, d ∈ l ∧ k ∈ index_keys (d !! "username").
Proof.
  unfold username_keys. rewrite list_elem_of_bind.
  split; intros (d & H1 & H2); by exists d.
Qed.

Lemma username_taken_found u l :
  username_taken [Some (VStr u)] l ↔ is_Some (find_user u l).
Proof.
  unfold username_taken. rewrite Exists_cons, Exists_nil, username_keys_elem.
  setoid_rewrite key_of_name. split.
  - intros [(d & Hd & Hu)|[]]. by apply (list_find_elem_of _ _ d).
  - intros [[i d] (Hi & Hu & _)%list_find_Some]. left. exists d. split; [|done].
    by eapply list_elem_of_lookup_2.
Qed.

Lemma username_keys_app l k : username_keys (l ++ k) = username_keys l ++ username_keys k.
Proof. unfold username_keys. apply bind_app. Qed.

Lemma username_keys_cons d l :
  username_keys (d :: l) = index_keys (d !! "username") ++ username_keys l.
Proof. done. Qed.

(** A key is listed at one position only. *)
Lemma username_keys_lookup l i j d d' k :
  NoDup (username_keys l) →
  l !! i = Some d → l !! j = Some d' →
  k ∈ index_keys (d !! "username") → k ∈ index_keys (d' !! "username") →
  i = j.
Proof.
  revert i j. induction l as [|x l IH]; intros i j Hnd Hi Hj Hk Hk'; [done|].
  rewrite username_keys_cons in Hnd. apply NoDup_app in Hnd as (_ & Hsep & Hl).
  destruct i as [|i], j as [|j]; simplify_eq/=.
  - done.
  - exfalso. apply (Hsep k Hk). apply username_keys_elem. exists d'.
    split; [by eapply list_elem_of_lookup_2|done].
  - exfalso. apply (Hsep k Hk'). apply username_keys_elem. exists d.
    split; [by eapply list_elem_of_lookup_2|done].
  - f_equal. by eapply IH.
Qed.

(** Replacing a document keeps the index free of repetitions when the
    keys that are new to it are new to the index. *)
Lemma username_keys_insert l i d d' :
  NoDup (username_keys l) →
  l !! i = Some d →
  ¬ username_taken (new_keys d d') l →
  NoDup (username_keys (<[i := d']> l)).
Proof.
  intros Hnd Hi Hfree.
  rewrite <- (take_drop_middle l i d Hi) in Hnd.
  rewrite insert_take_drop by by eapply lookup_lt_Some.
  rewrite username_keys_app, username_keys_cons in *.
  apply NoDup_app in Hnd as (Ha & Hsep & Hnd).
  apply NoDup_app in Hnd as (_ & Hsep' & Hb).
  assert (∀ k, k ∈ index_keys (d' !! "username") →
            k ∈ index_keys (d !! "username") ∨ k ∉ username_keys l) as Hnew.
  { intros k Hk. destruct (decide (k ∈ index_keys (d !! "username"))); [by left|].
    right. intros Hin. apply Hfree. apply Exists_exists. exists k.
    split; [|done]. unfold new_keys. by apply list_elem_of_filter. }
  assert (username_keys l
          = username_keys (take i l) ++ index_keys (d !! "username")
            ++ username_keys (drop (S i) l)) as Hl.
  { rewrite <- (take_drop_middle l i d Hi) at 1.
    by rewrite username_keys_app, username_keys_cons. }
  apply NoDup_app. split; [done|]. split.
  - intros k Hk [Hk'|Hk']%elem_of_app.
    + destruct (Hnew k Hk') as [Hold|Hno].
      * apply (Hsep k Hk). apply elem_of_app. by left.
      * apply Hno. rewrite Hl. apply elem_of_app. by left.
    + apply (Hsep k Hk). apply elem_of_app. by right.
  - apply NoDup_app. split; [apply NoDup_index_keys|]. split; [|done].
    intros k Hk Hk'. destruct (Hnew k Hk) as [Hold|Hno].
    + by apply (Hsep' k Hold).
    + apply Hno. rewrite Hl. apply elem_of_app. right.
      apply elem_of_app. by right.
Qed.

(** ** Field names *)

Lemma plain_payload_lookup data k :
  plain_payload data → is_Some (data !! k) → plain_key k.
Proof. intros Hp [v Hv]. by apply (Hp k v). Qed.

Lemma plain_payload_no_id data : plain_payload data → data !! "_id" = None.
Proof.
  intros Hp. destruct (data !! "_id") eqn:E; [|done].
  by destruct (Hp _ _ E) as (_ & _ & ? & _).
Qed.

Lemma plain_payload_no_proto data : plain_payload data → data !! "__proto__" = None.
Proof.
  intros Hp. destruct (data !! "__proto__") eqn:E; [|done].
  by destruct (Hp _ _ E) as (_ & _ & _ & ?).
Qed.

Lemma plain_key_valid k v : plain_key k → valid_key k v = true.
Proof. intros (Hd & Hs & _). unfold valid_key. by rewrite Hd, Hs. Qed.

Lemma plain_payload_valid data : plain_payload data → valid_doc data.
Proof. intros Hp k v Hk. apply plain_key_valid. by apply (Hp k v). Qed.

Lemma plain_payload_no_path data : plain_payload data → no_path data.
Proof. intros Hp k v Hk. by destruct (Hp k v Hk). Qed.

(** ** Listings in [_id] order *)

Lemma numbered_filter {A} (P : A → Prop) (Q : nat * A → Prop)
    `{∀ x, Decision (P x)} `{∀ x, Decision (Q x)} (l : list A) n :
  (∀ i x, Q (i, x) ↔ P x) →
  (filter Q (zip (seq n (length l)) l)).*2 = filter P l.
Proof.
  intros HQ. revert n. induction l as [|x l IH]; intros n; [done|].
  cbn [length seq zip zip_with]. rewrite !filter_cons.
  destruct (decide (Q (n, x))) as [Hq|Hq], (decide (P x)) as [Hp|Hp];
    cbn [fmap list_fmap snd]; rewrite ?IH; try done.
  - by apply HQ in Hq.
  - by apply (HQ n) in Hp.
Qed.

Lemma sorted_listing {A} (R : relation (nat * A)) `{∀ x y, Decision (R x y)}
    (P : A → Prop) (Q : nat * A → Prop)
    `{∀ x, Decision (P x)} `{∀ x, Decision (Q x)} (l : list A) :
  (∀ i x, Q (i, x) ↔ P x) →
  (merge_sort R (filter Q (zip (seq 0 (length l)) l))).*2 ≡ₚ filter P l.
Proof. intros HQ. by rewrite merge_sort_Permutation, (numbered_filter P Q). Qed.

(** [broadcastUserList] only emits. *)
Lemma broadcastUserList_emitting s w :
  ∃ l, (broadcastUserList s w).2 = emitting w l.
Proof.
  unfold broadcastUserList.
  destruct (when_named_cases w s (λ me,
    user ← users_findOne me;
    match user with
    | None => mret ()
    | Some user =>
        friends ← (if truthy (user !! "friends")
                   then match user !! "friends" with
                        | Some (VArr l) => mret l
                        | _ => throw
                        end
                   else mret []);
        online ← gets onlineUsers;
        emit s (update_user_list (presence_of online friends))
    end)) as [->|(u & _ & _ & ->)].
  { exists []. by rewrite emitting_nil. }
  unfold users_findOne. unfold_M. cbn.
  destruct (find_user u (users w)) as [[i d]|]; cbn.
  2:{ exists []. by rewrite emitting_nil. }
  destruct (truthy (d !! "friends")); cbn.
  2:{ eexists. by rewrite log_emitting. }
  destruct (d !! "friends") as [[]|]; cbn;
    try (exists []; by rewrite emitting_nil).
  eexists. by rewrite log_emitting.
Qed.

(** The fan-out loop of line 151. *)
Lemma forEach_member_emitting online e ms w :
  mapM (λ m, push_if_online online m e) ms w
  = (Some (replicate (length ms) ()),
     emitting w ((λ v, push v e) <$> online_members online ms)).
Proof.
  revert w. induction ms as [|m ms IH]; intros w; cbn.
  { unfold_M. by rewrite emitting_nil. }
  unfold mbind, M_bind at 1. unfold push_if_online at 1.
  destruct (online_get online m) as [v|] eqn:Hm; unfold_M; cbn.
  - rewrite IH. cbn. by rewrite log_emitting, emitting_app.
  - rewrite IH. done.
Qed.

(** A payload with plain field names gives a message that the store
    takes as it is and lists once. *)
Lemma plain_message uid ms data me now :
  plain_payload (fields data) →
  let msg := mkMessage (chat_doc data) me now in
  stored_copy msg = msg ∧ messages_accept uid ms msg ∧ listings msg = 1%nat.
Proof.
  intros Hp msg.
  assert (msg_doc msg !! "_id" = None) as Hid.
  { unfold msg_doc, msg, chat_doc; cbn.
    do 3 rewrite lookup_insert_ne by done. by apply plain_payload_no_id. }
  split; [|split].
  - unfold stored_copy, msg; cbn. f_equal. apply delete_id.
    unfold chat_doc. rewrite lookup_insert_ne by done.
    by apply plain_payload_no_proto.
  - split; [|by rewrite Hid].
    unfold msg_doc, msg, chat_doc; cbn.
    do 3 (apply map_Forall_insert_2; [done|]). by apply plain_payload_valid.
  - unfold listings. by rewrite Hid.
Qed.

Section Properties.

Context (bcrypt_hash : string → string) (bcrypt_compare : string → string → bool).
Context (uid : collection → nat → string) (set_paths : doc → doc → option doc).

Local Abbreviation set_fields := (set_fields uid set_paths).
Local Abbreviation message_ids := (message_ids uid).
Local Abbreviation messages_accept := (messages_accept uid).
Local Abbreviation messages_insert := (messages_insert uid).
Local Abbreviation member_groups := (member_groups uid).
Local Abbreviation groups_find_member := (groups_find_member uid).
Local Abbreviation new_user := (new_user bcrypt_hash).
Local Abbreviation bind_connection := (bind_connection uid).
Local Abbreviation register_user := (register_user bcrypt_hash uid).
Local Abbreviation authenticate := (authenticate bcrypt_hash bcrypt_compare uid).
Local Abbreviation update_profile := (update_profile uid set_paths).
Local Abbreviation chat_message := (chat_message uid).
Local Abbreviation insert_group := (insert_group uid).
Local Abbreviation create_group := (create_group uid).
Local Abbreviation add_member := (add_member uid).
Local Abbreviation handler := (handler bcrypt_hash bcrypt_compare uid set_paths).
Local Abbreviation step := (step bcrypt_hash bcrypt_compare uid set_paths).
Local Abbreviation run := (run bcrypt_hash bcrypt_compare uid set_paths).
Local Abbreviation reachable := (reachable bcrypt_hash bcrypt_compare uid set_paths).
Local Abbreviation enabled_run := (enabled_run bcrypt_hash bcrypt_compare uid set_paths).

(** Section parameters that a statement does not mention are removed
    before its proof starts. *)
Ltac tidy :=
  try clear set_paths; try clear uid; try clear bcrypt_compare;
  try clear bcrypt_hash.

Lemma reachable_run evs w : reachable w → enabled_run evs w → reachable (run evs w).
Proof.
  revert w. induction evs as [|ev evs IH]; intros w Hw Hen; cbn in *; [done|].
  destruct Hen as [Hev Hen]. apply IH; [|done]. by apply reachable_step.
Qed.

Lemma member_groups_perm u l : member_groups u l ≡ₚ filter (λ g, u ∈ members g) l.
Proof. unfold member_groups. by apply sorted_listing. Qed.

(** Lines 91-96 bind the socket, register it and emit. *)
Lemma bind_connection_spec s u w :
  ∃ l, exec (bind_connection s u) w =
    mkWorld (users w) (messages w) (groups w) (online_set u s (onlineUsers w))
      (<[s := Some u]> (sockets w)) (out w ++ Emit s (auth_success u) :: l).
Proof.
  unfold exec, bind_connection, groups_find_member. unfold_M. cbn.
  match goal with
  | |- context [broadcastUserList s ?w'] =>
      destruct (broadcastUserList_emitting s w') as [l ->]
  end.
  exists (l ++ [Emit s (update_group_list (member_groups u (groups w)))]).
  unfold log, emitting, with_online, with_sockets; cbn.
  f_equal. by rewrite <- !app_assoc.
Qed.


(** C10 (amended). [get_profile] never looks at the connection: when
    [target] names a user it emits one [profile_data] carrying the
    record's username and email as stored, and its bio and avatar
    with an empty or missing value replaced by the placeholder text
    and the default avatar path; when it names nobody the world is
    left as it was and nothing is emitted. *)
Theorem get_profile_public w s target :
  match find_user target (users w) with
  | Some (_, u) =>
      exec (get_profile s target) w =
        log (Emit s (profile_data
               (mkProfile (u !! "username")
                          (or_else (u !! "bio") (VStr text_no_bio))
                          (or_else (u !! "avatar") (VStr default_avatar))
                          (u !! "email")))) w
      ∧ (truthy (u !! "bio") = true →
           Some (or_else (u !! "bio") (VStr text_no_bio)) = u !! "bio")
      ∧ (truthy (u !! "avatar") = true →
           Some (or_else (u !! "avatar") (VStr default_avatar)) = u !! "avatar")
  | None =>
      exec (get_profile s target) w = w
      ∧ emitted_by (get_profile s target) w = []
  end.
Proof.
  destruct (find_user target (users w)) as [[i u]|] eqn:Hu.
  - split.
    + unfold exec, get_profile, users_findOne. unfold_M. cbn. by rewrite Hu.
    + unfold or_else.
      split; intros H; destruct (u !! _); cbn in *; by rewrite ?H.
  - assert (exec (get_profile s target) w = w) as E.
    { unfold exec, get_profile, users_findOne. unfold_M. cbn. by rewrite Hu. }
    split; [done|]. by apply emitted_by_unchanged.
Qed.

(** Lines 72-96 at any world: the index refuses the insert exactly when
    a lookup of the name would find a record. *)
Lemma register_user_run s c w :
  exec (register_user s c) w
  = match find_user (username c) (users w) with
    | Some _ => log (Emit s (auth_error text_register_failed)) w
    | None =>
        exec (bind_connection s (username c))
          (log (Insert Users) (with_users (λ l, l ++ [new_user c]) w))
    end.
Proof.
  unfold exec, register_user, users_insert. unfold_M. cbn.
  change (new_user c !! "username") with (Some (VStr (username c))).
  change (index_keys (Some (VStr (username c)))) with [Some (VStr (username c))].
  destruct (decide _) as [Ht|Hfree]; cbn.
  - apply username_taken_found in Ht as [[i d] ->]. done.
  - destruct (find_user (username c) (users w)) as [[i d]|] eqn:Hu; [|done].
    exfalso. apply Hfree. apply username_taken_found. by rewrite Hu.
Qed.

(** [authenticate] either refuses, leaving presence and bindings as they
    were and emitting no [auth_success], or runs lines 91-96. *)
Lemma authenticate_cases s c w :
  let w' := exec (authenticate s c) w in
  (∃ l, w' = emitting w l ∧ ∀ s' u', Emit s' (auth_success u') ∉ l)
  ∨ (sockets w' = <[s := Some (username c)]> (sockets w)
     ∧ onlineUsers w' = online_set (username c) s (onlineUsers w)).
Proof.
  cbn.
  assert (∀ t, ∃ l, log (Emit s (auth_error t)) w = emitting w l
                    ∧ ∀ s' u', Emit s' (auth_success u') ∉ l) as Hrefuse.
  { intros t. exists [Emit s (auth_error t)]. split; [done|].
    intros s' u'. by intros [=]%list_elem_of_singleton. }
  assert (∃ l, w = emitting w l
               ∧ ∀ s' u', Emit s' (auth_success u') ∉ l) as Hthrow.
  { exists []. split; [by rewrite emitting_nil|].
    intros s' u'. apply not_elem_of_nil. }
  assert (exec (authenticate s c) w
          = if isRegistering c then
              match find_user (username c) (users w) with
              | Some _ => log (Emit s (auth_error text_username_taken)) w
              | None => exec (register_user s c) w
              end
            else
              match find_user (username c) (users w) with
              | None => log (Emit s (auth_error text_bad_credentials)) w
              | Some (_, d) =>
                  match d !! "password" with
                  | Some (VStr digest) =>
                      if bcrypt_compare (password c) digest
                      then exec (bind_connection s (username c)) w
                      else log (Emit s (auth_error text_bad_credentials)) w
                  | _ => w
                  end
              end) as ->.
  { unfold exec, authenticate, users_findOne. unfold_M. cbn.
    destruct (isRegistering c);
      destruct (find_user (username c) (users w)) as [[i d]|]; cbn; try done.
    destruct (d !! "password") as [[]|]; cbn; try done.
    by destruct (bcrypt_compare _ _). }
  destruct (isRegistering c);
    destruct (find_user (username c) (users w)) as [[i d]|] eqn:Hu.
  - left. apply Hrefuse.
  - rewrite register_user_run, Hu. right.
    match goal with
    | |- context [exec (bind_connection s ?u) ?w1] =>
        destruct (bind_connection_spec s u w1) as [l ->]
    end.
    done.
  - destruct (d !! "password") as [[]|]; try (by left).
    destruct (bcrypt_compare _ _).
    + right. by destruct (bind_connection_spec s (username c) w) as [l ->].
    + left. apply Hrefuse.
  - left. apply Hrefuse.
Qed.

(** C7 (amended). Registration checks the name twice: with the lookup
    of line 64, and, after the password has been hashed, with the
    unique index at the insert of line 74; other handlers may run in
    between. When the lookup finds a record the handler emits the
    name-taken error and changes nothing else. When it finds none the
    handler goes on to the insert, in whatever world [w1] has come
    about by then: if the name has a record in [w1], the index refuses
    the insert, the handler emits the registration-failed error, and no
    user is created and the connection is neither bound nor registered;
    otherwise exactly one user document is appended, carrying the name,
    the digest of the password, an empty friends list and the default
    avatar, the connection is bound to the name, [auth_success] is
    emitted, and the connection is registered in [onlineUsers] under
    every name but [__proto__], for which line 92 makes no entry. *)
Theorem register_outcome w w1 s u p e :
  let c := mkCredentials u p e true in
  let w' := exec (register_user s c) w1 in
  match find_user u (users w) with
  | Some _ => exec (authenticate s c) w = log (Emit s (auth_error text_username_taken)) w
  | None => exec (authenticate s c) w = exec (register_user s c) w
  end
  ∧ match find_user u (users w1) with
    | Some _ => w' = log (Emit s (auth_error text_register_failed)) w1
    | None =>
        users w' = users w1 ++ [new_user c]
        ∧ new_user c !! "username" = Some (VStr u)
        ∧ new_user c !! "password" = Some (VStr (bcrypt_hash p))
        ∧ new_user c !! "friends" = Some (VArr [])
        ∧ new_user c !! "avatar" = Some (VStr default_avatar)
        ∧ bound w' s u
        ∧ (u ≠ "__proto__" → onlineUsers w' !! u = Some s)
        ∧ (u = "__proto__" → onlineUsers w' = onlineUsers w1)
        ∧ Emit s (auth_success u) ∈ emitted_by (register_user s c) w1
    end.
Proof.
  cbn. split.
  - unfold exec, authenticate, users_findOne. unfold_M. cbn.
    by destruct (find_user u (users w)) as [[i d]|].
  - set (c := mkCredentials u p e true).
    pose proof (register_user_run s c w1) as E. cbn in E.
    destruct (find_user u (users w1)) as [[i d]|] eqn:Hu; [done|].
    match type of E with
    | context [exec (bind_connection s ?u) ?w2] =>
        destruct (bind_connection_spec s u w2) as [l Hl]
    end.
    rewrite Hl in E. cbn in E.
    rewrite E; cbn. split; [done|]. do 4 (split; [done|]).
    split; [|split; [|split]].
    + unfold bound; cbn. by rewrite lookup_insert_eq.
    + intros Hp. by apply online_set_eq.
    + by intros ->.
    + rewrite (emitted_by_app _ _ (Insert Users :: Emit s (auth_success u) :: l)).
      * apply list_elem_of_further, list_elem_of_here.
      * rewrite E; cbn. by rewrite <- app_assoc.
Qed.

(** C9 (amended). A username that is not empty and names no property of
    [Object.prototype] authenticates on connection [a] and then on
    connection [b]: the registry entry of the name is overwritten with
    [b]. When [a] then disconnects, its handler deletes the entry of
    the name, so a read of [onlineUsers] under the name yields
    [undefined], the name is looked up as offline, although [b] is
    still live and bound to it. *)
Theorem stale_disconnect_unregisters w a b c1 c2 :
  a ≠ b →
  username c1 = username c2 →
  username c1 ≠ "" →
  username c1 ∉ object_prototype_names →
  let u := username c1 in
  let w1 := exec (authenticate a c1) w in
  let w2 := exec (authenticate b c2) w1 in
  let w3 := step (on_disconnect a) w2 in
  Emit a (auth_success u) ∈ emitted_by (authenticate a c1) w →
  Emit b (auth_success u) ∈ emitted_by (authenticate b c2) w1 →
  onlineUsers w2 !! u = Some b
  ∧ onlineUsers w3 !! u = None
  ∧ online_get (onlineUsers w3) u = None
  ∧ sockets w3 !! b = Some (Some u).
Proof.
  intros Hab Hc Hu Hproto u w1 w2 w3 H1 H2.
  assert (u ≠ "__proto__") as Hp.
  { intros E. apply Hproto. fold u. rewrite E. compute_done. }
  destruct (authenticate_cases a c1 w) as [(l & E & Hl)|[Hs1 Ho1]].
  { exfalso. apply (Hl a u). by rewrite (emitted_by_app _ _ l) in H1 by by rewrite E. }
  destruct (authenticate_cases b c2 w1) as [(l & E & Hl)|[Hs2 Ho2]].
  { exfalso. apply (Hl b u). by rewrite (emitted_by_app _ _ l) in H2 by by rewrite E. }
  fold w1 in Hs1, Ho1. fold w2 in Hs2, Ho2. rewrite <- Hc in Hs2, Ho2. fold u in Hs1, Hs2, Ho2.
  assert (bound w2 a u) as Hba.
  { unfold bound. rewrite Hs2, lookup_insert_ne, Hs1, lookup_insert_eq by done. done. }
  split; [by rewrite Ho2, online_set_eq|].
  assert (w3 = with_sockets (λ m, delete a m) (with_online (λ m, delete u m) w2))
    as ->.
  { unfold w3, step, exec, handler, disconnect.
    unfold mbind, M_bind at 1. by rewrite (when_named_bound _ _ u) by done. }
  cbn. split; [by rewrite lookup_delete_eq|]. split.
  - apply online_get_None. split; [by rewrite lookup_delete_eq|done].
  - by rewrite lookup_delete_ne, Hs2, lookup_insert_eq.
Qed.

(** C6 (amended). [send_request] never writes to a collection. When the
    sender is bound to a non-empty name, the target names an existing
    user other than the sender, and a read of [onlineUsers] under the
    target's name yields [undefined] (no entry, and no property of
    [Object.prototype] of that name), the only effect is the
    not-connected error emitted to the sender. *)
Theorem send_request_offline_target w s targetName :
  let w' := exec (send_request s targetName) w in
  (users w' = users w ∧ messages w' = messages w ∧ groups w' = groups w)
  ∧ ∀ me i d,
      bound w s me → me ≠ "" →
      find_user targetName (users w) = Some (i, d) →
      targetName ≠ me →
      online_get (onlineUsers w) targetName = None →
      w' = log (Emit s (error_msg text_not_connected)) w
      ∧ emitted_by (send_request s targetName) w
        = [Emit s (error_msg text_not_connected)].
Proof.
  tidy. cbn. split.
  - unfold exec, send_request.
    destruct (when_named_cases w s (λ me,
      targetUser ← users_findOne targetName;
      match targetUser with
      | None => emit s (error_msg text_no_such_user)
      | Some targetUser =>
          if decide (targetUser !! "username" = Some (VStr me))
          then emit s (error_msg text_cannot_add_self)
          else
            targetSocketId ← gets (λ w, online_get (onlineUsers w) targetName);
            match targetSocketId with
            | Some v => emit_to v (receive_request me)
            | None => emit s (error_msg text_not_connected)
            end
      end)) as [->|(u & _ & _ & ->)]; [done|].
    unfold users_findOne. unfold_M. cbn.
    destruct (find_user targetName (users w)) as [[i d]|]; cbn; [|done].
    destruct (decide _); cbn; [done|].
    by destruct (online_get (onlineUsers w) targetName).
  - intros me i d Hb Hme Hu Hne Hoff.
    assert (exec (send_request s targetName) w
            = log (Emit s (error_msg text_not_connected)) w) as E.
    { unfold exec, send_request. rewrite (when_named_bound _ _ me) by done.
      unfold users_findOne. unfold_M. cbn. rewrite Hu. cbn.
      destruct (decide _) as [Hself|_]; cbn.
      - apply list_find_Some in Hu as (_ & Hf & _).
        unfold field_is in Hf. rewrite Hself in Hf. congruence.
      - by rewrite Hoff. }
    split; [done|]. apply emitted_by_app. by rewrite E.
Qed.

(** What [chat_message] does on a bound connection, as one equation. *)
Lemma chat_message_run w s me data now :
  bound w s me → me ≠ "" →
  let msg := mkMessage (chat_doc data) me now in
  exec (chat_message s data now) w
  = if decide (messages_accept (messages w) (stored_copy msg)) then
      emitting
        (with_messages
           (λ l, l ++ replicate (listings (stored_copy msg)) (stored_copy msg)) w)
        (Insert Messages ::
         ((λ v, push v (new_msg msg)) <$>
          (if truthy (chat_doc data !! "isGroup") then
             match find_group (to data) (groups w) with
             | Some (_, g) => online_members (onlineUsers w) (members g)
             | None => []
             end
           else
             match online_get (onlineUsers w) (to data) with
             | Some v => [v; socket_id s]
             | None => [socket_id s]
             end)))
    else w.
Proof.
  intros Hb Hme msg. unfold exec, chat_message.
  rewrite (when_named_bound _ _ me) by done.
  rewrite bind_run. unfold messages_insert at 1. fold msg.
  destruct (decide _) as [Hok|Hno]; [|done].
  unfold groups_findOne.
  destruct (truthy (chat_doc data !! "isGroup")) eqn:Hgrp.
  - unfold gets, modify. repeat (rewrite bind_run; cbn).
    destruct (find_group (to data) (groups w)) as [[i g]|]; cbn.
    + rewrite bind_run, forEach_member_emitting. cbn.
      by rewrite log_emitting, emitting_app.
    + by rewrite log_emitting.
  - unfold push_if_online. unfold_M; cbn.
    destruct (online_get (onlineUsers w) (to data)) as [v|]; cbn.
    + unfold log, emitting; cbn. by rewrite <- !app_assoc.
    + unfold log, emitting; cbn. by rewrite <- !app_assoc.
Qed.

(** A chat message leaves the sockets as they are, and a payload with
    plain field names is stored as one document. *)
Lemma chat_message_plain w s me data now :
  bound w s me → me ≠ "" →
  let msg := mkMessage (chat_doc data) me now in
  let w' := exec (chat_message s data now) w in
  sockets w' = sockets w
  ∧ (plain_payload (fields data) →
       messages_accept (messages w) msg ∧ messages w' = messages w ++ [msg]).
Proof.
  intros Hb Hme msg w'.
  pose proof (chat_message_run w s me data now Hb Hme) as E.
  cbn zeta in E. fold msg w' in E. split.
  - rewrite E. by destruct (decide _).
  - intros Hp.
    destruct (plain_message uid (messages w) data me now Hp) as (Hcopy & Hacc & Hone).
    fold msg in Hcopy, Hacc, Hone. rewrite Hcopy in E. split; [done|].
    rewrite E, decide_True by done. cbn. by rewrite Hone.
Qed.

(** C4 (amended). [chat_message] on a connection bound to a non-empty
    name hands the message, stamped with the server's clock, to
    [db.messages] before anything else. When the store refuses the
    document (a field name with a dot or a leading dollar sign, or an
    [_id] that is in use) the handler stops: nothing is stored and
    nothing is sent. Otherwise the message is stored, as one document
    when the field names of the payload are plain, and every [new_msg]
    comes after that write. For a direct message the push goes to what
    [onlineUsers] has under the recipient's name, the recipient's
    registered socket if there is an entry, and then always to the
    sender's own socket; for a group message it goes to what
    [onlineUsers] has under the name of each member. *)
Theorem chat_message_persists_then_delivers w s me data now :
  bound w s me → me ≠ "" →
  let msg := mkMessage (chat_doc data) me now in
  let w' := exec (chat_message s data now) w in
  users w' = users w ∧ groups w' = groups w
  ∧ (¬ messages_accept (messages w) (stored_copy msg) → w' = w)
  ∧ (plain_payload (fields data) →
       messages_accept (messages w) (stored_copy msg)
       ∧ messages w' = messages w ++ [msg])
  ∧ (messages_accept (messages w) (stored_copy msg) →
       messages w'
       = messages w ++ replicate (listings (stored_copy msg)) (stored_copy msg)
       ∧ ∃ targets,
           emitted_by (chat_message s data now) w
             = Insert Messages :: ((λ v, push v (new_msg msg)) <$> targets)
           ∧ (truthy (chat_doc data !! "isGroup") = false →
                targets = match online_get (onlineUsers w) (to data) with
                          | Some v => [v; socket_id s]
                          | None => [socket_id s]
                          end
                ∧ (∀ id, Emit id (new_msg msg) ∈ emitted_by (chat_message s data now) w
                     ↔ onlineUsers w !! to data = Some id ∨ id = s))
           ∧ (truthy (chat_doc data !! "isGroup") = true →
                targets = match find_group (to data) (groups w) with
                          | Some (_, g) => online_members (onlineUsers w) (members g)
                          | None => []
                          end)).
Proof.
  intros Hb Hme msg w'.
  pose proof (chat_message_run w s me data now Hb Hme) as E.
  cbn zeta in E. fold msg w' in E.
  split; [|split; [|split; [|split]]].
  - rewrite E. by destruct (decide _).
  - rewrite E. by destruct (decide _).
  - intros Hno. by rewrite E, decide_False.
  - intros Hp.
    destruct (plain_message uid (messages w) data me now Hp) as (Hcopy & Hacc & Hone).
    fold msg in Hcopy, Hacc, Hone. rewrite Hcopy in E |- *. split; [done|].
    rewrite E, decide_True by done. cbn. by rewrite Hone.
  - intros Hacc. rewrite decide_True in E by done.
    split; [by rewrite E|].
    assert (∀ l, w' = emitting (with_messages
                       (λ l, l ++ replicate (listings (stored_copy msg)) (stored_copy msg)) w) l →
                 emitted_by (chat_message s data now) w = l) as Hout.
    { intros l El. apply emitted_by_app. fold w'. by rewrite El. }
    eexists. split; [by apply Hout|].
    destruct (truthy (chat_doc data !! "isGroup")); [by split|].
    split; [|done]. intros _.
    split; [done|]. intros id. rewrite (Hout _ E).
    unfold online_get.
    destruct (onlineUsers w !! to data) as [id0|]; [|destruct (decide _)]; cbn;
      rewrite !elem_of_cons, elem_of_nil.
    + split.
      * intros [[=]|[[= ->]|[[= ->]|[]]]]; [by left|by right].
      * intros [[= ->]| ->]; [right; by left|right; right; by left].
    + split.
      * intros [[=]|[[=]|[[= ->]|[]]]]. by right.
      * intros [[=]| ->]. right; right; by left.
    + split.
      * intros [[=]|[[= ->]|[]]]. by right.
      * intros [[=]| ->]. right; by left.
Qed.


(** ** Relations kept by the handlers *)

Section Stable.

Context (R : relation World) `{!PreOrder R}.

Lemma stable_ret {A} (x : A) : stable R (mret x).
Proof. intros w. done. Qed.

Lemma stable_throw {A} : stable R (@throw A).
Proof. intros w. done. Qed.

Lemma stable_gets {A} (f : World → A) : stable R (gets f).
Proof. intros w. done. Qed.

Lemma stable_modify f : (∀ w, R w (f w)) → stable R (modify f).
Proof. intros H w. apply H. Qed.

Lemma stable_bind {A B} (m : M A) (f : A → M B) :
  stable R m → (∀ x, stable R (f x)) → stable R (m ≫= f).
Proof.
  intros Hm Hf w. rewrite bind_run. specialize (Hm w).
  destruct (m w) as [[x|] w1]; cbn in *; [|done].
  by etrans; [|apply Hf].
Qed.

Lemma stable_try_catch {A} (m h : M A) :
  stable R m → stable R h → stable R (try_catch m h).
Proof.
  intros Hm Hh w. unfold try_catch. specialize (Hm w).
  destruct (m w) as [[x|] w1]; cbn in *; [done|].
  by etrans; [|apply Hh].
Qed.

Lemma stable_detached m : stable R m → stable R (detached m).
Proof. intros Hm w. apply Hm. Qed.

Lemma stable_mapM {A B} (f : A → M B) l :
  (∀ x, stable R (f x)) → stable R (mapM f l).
Proof.
  intros Hf. induction l as [|x l IH]; cbn.
  - apply stable_ret.
  - apply stable_bind; [done|]. intros y.
    apply stable_bind; [done|]. intros k. apply stable_ret.
Qed.

Lemma stable_when_named s k :
  (∀ u, stable R (k u)) → stable R (when_named s k).
Proof.
  intros Hk w.
  destruct (when_named_cases w s k) as [->|(u & _ & _ & ->)]; [done|apply Hk].
Qed.

(** What the relation has to allow. *)
Variable payload_ok : doc → Prop.
Hypothesis R_log : ∀ e w, R w (log e w).
Hypothesis R_sockets : ∀ f w, R w (with_sockets f w).
Hypothesis R_online : ∀ f w, R w (with_online f w).
Hypothesis R_messages_insert : ∀ m, stable R (messages_insert m).
Hypothesis R_users_insert : ∀ d, stable R (users_insert d).
Hypothesis R_add_friend :
  ∀ u x, stable R (users_update u (λ _, addToSet "friends" x)).
Hypothesis R_set_fields :
  ∀ u data, payload_ok data → stable R (users_update u (set_fields data)).
Hypothesis R_groups_insert : ∀ n me, stable R (groups_insert (mkGroup n me [me])).
Hypothesis R_groups_add : ∀ n x, stable R (groups_add_member n x).

Lemma stable_emit id e : stable R (emit id e).
Proof. apply stable_modify. intros w. apply R_log. Qed.

Lemma stable_emit_to v e : stable R (emit_to v e).
Proof. apply stable_modify. intros w. apply R_log. Qed.

Ltac stable_step :=
  lazymatch goal with
  | |- stable _ (socket_username _) => apply stable_gets
  | |- stable _ (messages_insert _) => apply R_messages_insert
  | |- stable _ (mret _) => apply stable_ret
  | |- stable _ throw => apply stable_throw
  | |- stable _ (gets _) => apply stable_gets
  | |- stable _ (emit _ _) => apply stable_emit
  | |- stable _ (emit_to _ _) => apply stable_emit_to
  | |- stable _ (detached _) => apply stable_detached
  | |- stable _ (users_insert _) => apply R_users_insert
  | |- stable _ (users_update _ (λ _, addToSet _ _)) => apply R_add_friend
  | |- stable _ (groups_insert _) => apply R_groups_insert
  | |- stable _ (groups_add_member _ _) => apply R_groups_add
  | |- stable _ (when_named _ _) => apply stable_when_named; intros ?
  | |- stable _ (try_catch _ _) => apply stable_try_catch
  | |- stable _ (mapM _ _) => apply stable_mapM; intros ?
  | |- stable _ (mbind _ _) => apply stable_bind; [|intros ?]
  | |- stable _ (modify _) =>
      apply stable_modify; intros ?;
      first [apply R_sockets | apply R_online]
  | |- stable _ (match ?x with _ => _ end) => destruct x
  end.

Lemma broadcastUserList_stable s : stable R (broadcastUserList s).
Proof. unfold broadcastUserList, users_findOne. repeat stable_step. Qed.

Lemma bind_connection_stable s u : stable R (bind_connection s u).
Proof.
  unfold bind_connection, groups_find_member.
  repeat lazymatch goal with
         | |- stable _ (broadcastUserList _) => apply broadcastUserList_stable
         | _ => stable_step
         end.
Qed.

Lemma handler_stable ev : payloads_satisfy payload_ok ev → stable R (handler ev).
Proof.
  destruct ev; cbn [handler payloads_satisfy]; intros Hev;
    unfold authenticate, register_user, send_request, accept_request,
      get_profile, update_profile, chat_message, push_if_online, create_group,
      insert_group, add_member, get_history, disconnect, users_findOne,
      groups_findOne, groups_find_member, messages_find_sorted;
    repeat lazymatch goal with
           | |- stable _ (broadcastUserList _) => apply broadcastUserList_stable
           | |- stable _ (bind_connection _ _) => apply bind_connection_stable
           | |- stable _ (users_update _ (set_fields _)) => by apply R_set_fields
           | _ => stable_step
           end.
Qed.

End Stable.

Lemma run_kept (R : relation World) `{!PreOrder R} (P : doc → Prop) :
  (∀ ev, payloads_satisfy P ev → stable R (handler ev)) →
  ∀ evs w, Forall (payloads_satisfy P) evs → R w (run evs w).
Proof.
  intros Hstep evs w Hevs. revert w.
  induction Hevs as [|ev evs Hev _ IH]; intros w; cbn; [done|].
  etrans; [|apply IH]. by apply Hstep.
Qed.

(** ** Groups *)

Lemma messages_insert_cases m w :
  (messages_insert m w).2 = w
  ∨ (messages_insert m w).2
    = log (Insert Messages)
        (with_messages
           (λ l, l ++ replicate (listings (stored_copy m)) (stored_copy m)) w).
Proof. unfold messages_insert. destruct (decide _); auto. Qed.

Lemma users_insert_cases d w :
  (users_insert d w).2 = w
  ∨ (users_insert d w).2 = log (Insert Users) (with_users (λ l, l ++ [d]) w).
Proof. tidy. unfold users_insert. destruct (decide _); auto. Qed.

Lemma users_update_cases u f w :
  (users_update u f w).2 = w
  ∨ ∃ i d d', find_user u (users w) = Some (i, d) ∧ f i d = Some d'
      ∧ ¬ username_taken (new_keys d d') (users w)
      ∧ (users_update u f w).2
        = log (Update Users) (with_users (λ l, <[i := d']> l) w).
Proof.
  tidy. unfold users_update.
  destruct (find_user u (users w)) as [[i d]|]; [|by left].
  destruct (f i d) as [d'|] eqn:Hf; [|by left].
  destruct (decide _); [by left|]. right. by exists i, d, d'.
Qed.

Lemma groups_grow_refl l : groups_grow l l.
Proof. tidy. intros i g Hg. by exists g. Qed.

Lemma groups_grow_trans l1 l2 l3 :
  groups_grow l1 l2 → groups_grow l2 l3 → groups_grow l1 l3.
Proof.
  tidy. intros H12 H23 i g Hg.
  destruct (H12 i g Hg) as (g2 & Hg2 & Hn2 & Ha2 & Hm2).
  destruct (H23 i g2 Hg2) as (g3 & Hg3 & Hn3 & Ha3 & Hm3).
  exists g3. repeat split; [done|congruence|congruence|by etrans].
Qed.

#[local] Instance groups_kept_preorder : PreOrder groups_kept.
Proof.
  split.
  - intros w. split; [apply groups_grow_refl|done].
  - intros w1 w2 w3 [G12 I12] [G23 I23].
    split; [by eapply groups_grow_trans|auto].
Qed.

Lemma add_to_set_superset x l : l ⊆ add_to_set x l.
Proof.
  tidy. unfold add_to_set. destruct (decide _); [done|].
  intros y Hy. apply elem_of_app. by left.
Qed.

Lemma add_to_set_elem x l : x ∈ add_to_set x l.
Proof.
  tidy. unfold add_to_set. destruct (decide _); [done|].
  apply elem_of_app. right. apply list_elem_of_here.
Qed.

Lemma add_to_set_present x l : x ∈ l → add_to_set x l = l.
Proof. tidy. unfold add_to_set. intros H. by destruct (decide _). Qed.

Lemma groups_insert_kept n me : stable groups_kept (groups_insert (mkGroup n me [me])).
Proof.
  tidy. intros w. split; cbn.
  - intros i g Hg. exists g. split; [by apply lookup_app_l_Some|done].
  - intros H. apply Forall_app. split; [done|].
    apply Forall_singleton. unfold admin_is_member; cbn. apply list_elem_of_here.
Qed.

Lemma groups_add_member_cases n x w :
  (groups_add_member n x w).2 = w
  ∨ ∃ i g, find_group n (groups w) = Some (i, g)
      ∧ (groups_add_member n x w).2
        = log (Update Groups)
            (with_groups
               (λ l, <[i := mkGroup (name g) (admin g) (add_to_set x (members g))]> l) w).
Proof.
  tidy. unfold groups_add_member.
  destruct (find_group n (groups w)) as [[i g]|]; [|by left].
  right. by exists i, g.
Qed.

Lemma groups_add_member_kept n x : stable groups_kept (groups_add_member n x).
Proof.
  tidy. intros w.
  destruct (groups_add_member_cases n x w) as [->|(i & g & Hg & ->)]; [done|].
  apply list_find_Some in Hg as (Hi & _ & _). split; cbn.
  - intros j g0 Hj. destruct (decide (j = i)) as [->|Hne].
    + rewrite Hi in Hj. injection Hj as <-.
      eexists. split; [apply list_lookup_insert_eq; by eapply lookup_lt_Some|].
      cbn. split; [done|]. split; [done|]. apply add_to_set_superset.
    + exists g0. by rewrite list_lookup_insert_ne.
  - intros H. apply Forall_insert; [done|].
    unfold admin_is_member; cbn.
    apply add_to_set_superset. by eapply (Forall_lookup_1 _ _ i g) in H.
Qed.

Lemma groups_kept_same w w' : groups w' = groups w → groups_kept w w'.
Proof. tidy. intros E. unfold groups_kept. rewrite E. split; [apply groups_grow_refl|done]. Qed.

Lemma handler_groups_kept ev : stable groups_kept (handler ev).
Proof.
  apply (handler_stable groups_kept (λ _, True)).
  - intros e w. by apply groups_kept_same.
  - intros f w. by apply groups_kept_same.
  - intros f w. by apply groups_kept_same.
  - intros m w. apply groups_kept_same.
    by destruct (messages_insert_cases m w) as [->| ->].
  - intros d w. apply groups_kept_same.
    by destruct (users_insert_cases d w) as [->| ->].
  - intros u x w. apply groups_kept_same.
    by destruct (users_update_cases u (λ _, addToSet "friends" x) w)
      as [->|(? & ? & ? & _ & _ & _ & ->)].
  - intros u data _ w. apply groups_kept_same.
    by destruct (users_update_cases u (set_fields data) w)
      as [->|(? & ? & ? & _ & _ & _ & ->)].
  - apply groups_insert_kept.
  - apply groups_add_member_kept.
  - by destruct ev.
Qed.

(** C8. In every reachable world the admin of every group is one of
    its members. [create_group] on a free name appends the group
    with the creator as its admin and only member; [add_member]
    either leaves the groups as they are or adds the new name to the
    member list of the group it names; and no event of any kind moves
    a group, renames it, changes its admin or removes a member. *)
Theorem group_admin_always_member :
  (∀ w, reachable w → Forall admin_is_member (groups w))
  ∧ (∀ w s me n,
       bound w s me → me ≠ "" → find_group n (groups w) = None →
       groups (exec (create_group s n) w) = groups w ++ [mkGroup n me [me]])
  ∧ (∀ w s n x,
       groups (exec (add_member s n x) w) = groups w
       ∨ ∃ i g, find_group n (groups w) = Some (i, g)
           ∧ groups (exec (add_member s n x) w)
             = <[i := mkGroup (name g) (admin g) (add_to_set x (members g))]> (groups w))
  ∧ (∀ w ev, groups_grow (groups w) (groups (step ev w))).
Proof.
  split; [|split; [|split]].
  - intros w Hw. induction Hw as [|w ev _ IH _]; [by apply Forall_nil|].
    by apply (handler_groups_kept ev w).
  - intros w s me n Hb Hme Hn.
    unfold exec, create_group. rewrite (when_named_bound _ _ me) by done.
    unfold insert_group, groups_findOne, groups_insert, groups_find_member.
    unfold_M. cbn. by rewrite Hn.
  - intros w s n x. unfold exec, add_member, groups_findOne.
    unfold gets at 1 2, socket_username, gets. rewrite !bind_run. cbn.
    destruct (decide _); [by left|]. rewrite bind_run.
    destruct (groups_add_member_cases n x w) as [E|(i & g & Hg & E)].
    + left. destruct (groups_add_member n x w) as [[[]|] w1]; cbn in *; subst;
        [|done]. unfold groups_find_member. unfold_M. cbn.
      by destruct (online_get (onlineUsers w) x).
    + right. exists i, g. split; [done|].
      destruct (groups_add_member n x w) as [[[]|] w1]; cbn in *; subst;
        [|done]. unfold groups_find_member. unfold_M. cbn.
      by destruct (online_get (onlineUsers w) x).
  - intros w ev. apply (handler_groups_kept ev w).
Qed.

(** ** Friends *)

(** Replacing an element by one that answers the query alike does not
    change which position a search finds. *)
Lemma list_find_insert_alike {A} (P : A → Prop) `{∀ x, Decision (P x)}
    (l : list A) i x x' :
  l !! i = Some x → (P x' ↔ P x) →
  list_find P (<[i := x']> l)
  = (λ jy, (jy.1, if decide (jy.1 = i) then x' else jy.2)) <$> list_find P l.
Proof.
  tidy. intros Hi HP. revert i Hi.
  induction l as [|y l IH]; intros [|i] Hi; try done; simpl in *.
  - injection Hi as ->.
    destruct (decide (P x')), (decide (P x)); try tauto; simpl.
    by destruct (list_find P l) as [[j z]|].
  - destruct (decide (P y)); simpl; [done|].
    rewrite (IH i Hi).
    destruct (list_find P l) as [[j z]|]; simpl; [|done].
    by repeat case_decide; try lia.
Qed.

Lemma field_is_username u d d' :
  d' !! "username" = d !! "username" →
  field_is "username" u d' ↔ field_is "username" u d.
Proof. tidy. unfold field_is. by intros ->. Qed.

Lemma find_user_insert_alike u l i d d' :
  l !! i = Some d → d' !! "username" = d !! "username" →
  find_user u (<[i := d']> l)
  = (λ jy, (jy.1, if decide (jy.1 = i) then d' else jy.2)) <$> find_user u l.
Proof.
  tidy. intros Hi Hu. unfold find_user.
  apply list_find_insert_alike with d; [done|]. by apply field_is_username.
Qed.

Lemma has_friend_insert a b l i d d' :
  l !! i = Some d → d' !! "username" = d !! "username" →
  friends_of d ⊆ friends_of d' →
  has_friend a b l → has_friend a b (<[i := d']> l).
Proof.
  tidy. intros Hi Hu Hsub (j & dj & Hj & Hb).
  unfold has_friend. rewrite (find_user_insert_alike _ _ _ d) by done.
  rewrite Hj; cbn. case_decide as Hji.
  - subst j. apply list_find_Some in Hj as (Hj & _).
    assert (dj = d) as -> by congruence. eauto.
  - eauto.
Qed.

Lemma has_friend_app a b l d : has_friend a b l → has_friend a b (l ++ [d]).
Proof.
  tidy. intros (j & dj & Hj & Hb). exists j, dj. split; [|done].
  by apply list_find_app_l.
Qed.

Lemma addToSet_friends x d d' :
  addToSet "friends" x d = Some d' →
  d' !! "username" = d !! "username"
  ∧ friends_of d ⊆ friends_of d'
  ∧ x ∈ friends_of d'
  ∧ friends_ok d'
  ∧ ∀ k, k ≠ "friends" → d' !! k = d !! k.
Proof.
  tidy. unfold addToSet, friends_of, friends_ok.
  destruct (d !! "friends") as [[]|] eqn:Hf; intros [= <-];
    rewrite lookup_insert_ne by done; rewrite lookup_insert_eq;
    (split; [done|]); (split; [|split; [|split; [done|]]]).
  - apply add_to_set_superset.
  - apply add_to_set_elem.
  - intros k Hk. by rewrite lookup_insert_ne.
  - intros y Hy. by apply elem_of_nil in Hy.
  - apply list_elem_of_here.
  - intros k Hk. by rewrite lookup_insert_ne.
Qed.

Lemma addToSet_friends_ok x d : friends_ok d → is_Some (addToSet "friends" x d).
Proof.
  tidy. unfold friends_ok, addToSet. by destruct (d !! "friends") as [[]|].
Qed.

(** The set-addition does nothing to a record that has the name. *)
Lemma addToSet_present x d :
  x ∈ friends_of d → addToSet "friends" x d = Some d.
Proof.
  tidy. unfold friends_of, addToSet.
  destruct (d !! "friends") as [[]|] eqn:Hf; try by intros ?%not_elem_of_nil.
  intros Hx. rewrite add_to_set_present by done. by rewrite insert_id.
Qed.

(** A payload with plain field names is laid over the document. *)
Lemma set_fields_plain data i d :
  plain_payload data → set_fields data i d = Some (data ∪ d).
Proof.
  intros Hp. unfold set_fields.
  rewrite decide_True by by apply plain_payload_no_path.
  rewrite (delete_id data "__proto__") by by apply plain_payload_no_proto.
  rewrite decide_True.
  - by rewrite delete_id by by apply plain_payload_no_id.
  - split; [by apply plain_payload_valid|].
    unfold same_id. by rewrite plain_payload_no_id.
Qed.

Lemma set_fields_keeps data i d d' :
  keeps_friends data → set_fields data i d = Some d' →
  d' !! "username" = d !! "username" ∧ friends_of d' = friends_of d.
Proof.
  intros (Hp & Hu & Hf). rewrite set_fields_plain by done. intros [= <-].
  unfold friends_of. by rewrite !lookup_union_r.
Qed.

(** A document that keeps its username adds no key to the index. *)
Lemma new_keys_same d d' : d' !! "username" = d !! "username" → new_keys d d' = [].
Proof.
  tidy. intros E. unfold new_keys. rewrite E. apply elem_of_nil_inv.
  intros k (Hno & Hin)%list_elem_of_filter. by apply Hno.
Qed.

(** An update that keeps the username is not stopped by the index. *)
Lemma users_update_applied u f w i d d' :
  find_user u (users w) = Some (i, d) → f i d = Some d' →
  d' !! "username" = d !! "username" →
  users_update u f w
  = (Some (), log (Update Users) (with_users (λ l, <[i := d']> l) w)).
Proof.
  tidy. intros Hu Hf Hsame. unfold users_update. rewrite Hu, Hf.
  rewrite new_keys_same by done.
  rewrite decide_False; [done|]. unfold username_taken. by intros ?%Exists_nil.
Qed.

#[local] Instance friends_kept_preorder : PreOrder friends_kept.
Proof. split; unfold friends_kept; [by intros w|intros w1 w2 w3; eauto]. Qed.

Lemma friends_kept_same w w' : users w' = users w → friends_kept w w'.
Proof. tidy. unfold friends_kept. by intros ->. Qed.

Lemma add_friend_friends_kept u x :
  stable friends_kept (users_update u (λ _, addToSet "friends" x)).
Proof.
  tidy. intros w.
  destruct (users_update_cases u (λ _, addToSet "friends" x) w)
    as [->|(i & d & d' & Hu & Hf & _ & ->)]; [done|].
  apply addToSet_friends in Hf as (Hsame & Hsub & _).
  apply list_find_Some in Hu as (Hi & _).
  intros a b. cbn. by apply has_friend_insert with d.
Qed.

Lemma handler_friends_kept ev :
  payloads_satisfy keeps_friends ev → stable friends_kept (handler ev).
Proof.
  apply (handler_stable friends_kept keeps_friends).
  - intros e w. by apply friends_kept_same.
  - intros f w. by apply friends_kept_same.
  - intros f w. by apply friends_kept_same.
  - intros m w. apply friends_kept_same.
    by destruct (messages_insert_cases m w) as [->| ->].
  - intros d w. destruct (users_insert_cases d w) as [->| ->]; [done|].
    intros a b. apply has_friend_app.
  - apply add_friend_friends_kept.
  - intros u data Hdata w.
    destruct (users_update_cases u (set_fields data) w)
      as [->|(i & d & d' & Hu & Hf & _ & ->)]; [done|].
    apply set_fields_keeps in Hf as (Hsame & Hsub); [|done].
    apply list_find_Some in Hu as (Hi & _).
    intros a b. cbn. apply has_friend_insert with d; [done|done|by rewrite Hsub].
  - intros n me w. by apply friends_kept_same.
  - intros n x w. apply friends_kept_same.
    by destruct (groups_add_member_cases n x w) as [->|(? & ? & _ & ->)].
Qed.

(** After its two updates [accept_request] only emits. *)
Lemma accept_request_run s me from w :
  bound w s me → me ≠ "" →
  ∃ l, exec (accept_request s from) w
       = emitting ((users_update me (λ _, addToSet "friends" from);;
                    users_update from (λ _, addToSet "friends" me)) w).2 l.
Proof.
  tidy. intros Hb Hme. unfold exec, accept_request.
  rewrite (when_named_bound _ _ me) by done. rewrite !bind_run.
  destruct (users_update me (λ _, addToSet "friends" from) w) as [[[]|] w1]; cbn.
  2:{ exists []. by rewrite emitting_nil. }
  rewrite !bind_run.
  destruct (users_update from (λ _, addToSet "friends" me) w1) as [[[]|] w2]; cbn.
  2:{ exists []. by rewrite emitting_nil. }
  rewrite bind_run. unfold detached at 1.
  destruct (broadcastUserList_emitting s w2) as [l ->].
  unfold gets. rewrite bind_run; cbn.
  destruct (online_get (onlineUsers w2) from) as [[id|]|]; cbn; [|by exists l..].
  rewrite bind_run; cbn.
  destruct (sockets w2 !! id); cbn; [|by exists l].
  unfold detached.
  destruct (broadcastUserList_emitting id (emitting w2 l)) as [l' ->].
  exists (l ++ l'). by rewrite emitting_app.
Qed.

(** The first update of [accept_request] on a record that takes it. *)
Lemma accept_request_first w A B iA dA :
  find_user A (users w) = Some (iA, dA) → friends_ok dA →
  ∃ dA', addToSet "friends" B dA = Some dA'
    ∧ users_update A (λ _, addToSet "friends" B) w
      = (Some (), log (Update Users) (with_users (λ l, <[iA := dA']> l) w))
    ∧ find_user A (<[iA := dA']> (users w)) = Some (iA, dA')
    ∧ (∀ u, find_user u (<[iA := dA']> (users w))
            = (λ jy, (jy.1, if decide (jy.1 = iA) then dA' else jy.2))
              <$> find_user u (users w))
    ∧ B ∈ friends_of dA'
    ∧ friends_ok dA'.
Proof.
  tidy. intros HfA HokA.
  destruct (addToSet_friends_ok B dA HokA) as [dA' HdA'].
  pose proof (addToSet_friends _ _ _ HdA') as (HuA & HsubA & HinA & HokA' & _).
  pose proof HfA as (HiA & _)%list_find_Some.
  exists dA'. split; [done|].
  split; [by apply (users_update_applied _ _ _ iA dA dA')|].
  split; [|split; [|done]].
  - rewrite (find_user_insert_alike _ _ _ dA), HfA by done.
    cbn. by rewrite decide_True.
  - intros u. by apply find_user_insert_alike with dA.
Qed.

(** C3 (amended). The accepter [A] is bound to a non-empty name and
    has a user record whose friends field is a list or missing. Then
    [accept_request] leaves the requester name [B] among [A]'s friends,
    and that stays so in every later world reached by events in which
    every [update_profile] payload has plain field names and names
    neither the username nor the friends field. When [B] has a record
    whose friends field is a list or missing too, [A] is among [B]'s
    friends likewise, now and later, and if both names were already in
    place the user collection is unchanged: each set-addition is a
    no-op when the name is present. When [B] names no user there is
    still no record of [B] afterwards: only [A]'s friends have gained
    a name. *)
Theorem accept_request_befriends w s A B iA dA :
  bound w s A → A ≠ "" →
  find_user A (users w) = Some (iA, dA) →
  friends_ok dA →
  let w' := exec (accept_request s B) w in
  has_friend A B (users w')
  ∧ (∀ evs, Forall (payloads_satisfy keeps_friends) evs →
       has_friend A B (users (run evs w')))
  ∧ match find_user B (users w) with
    | Some (iB, dB) =>
        friends_ok dB →
        has_friend B A (users w')
        ∧ (∀ evs, Forall (payloads_satisfy keeps_friends) evs →
             has_friend B A (users (run evs w')))
        ∧ (B ∈ friends_of dA → A ∈ friends_of dB → users w' = users w)
    | None =>
        find_user B (users w') = None
        ∧ ∃ dA', addToSet "friends" B dA = Some dA'
                 ∧ users w' = <[iA := dA']> (users w)
    end
  ∧ (∀ x l, x ∈ l → add_to_set x l = l).
Proof.
  intros Hb HA HfA HokA w'.
  destruct (accept_request_run s A B w Hb HA) as [l E]. fold w' in E.
  destruct (accept_request_first w A B iA dA HfA HokA)
    as (dA' & HdA' & Hrun1 & HfA1 & Hfind1 & HinA & HokA').
  pose proof (addToSet_friends _ _ _ HdA') as (HuA & _).
  pose proof HfA as (HiA & _)%list_find_Some.
  set (w1 := log (Update Users) (with_users (λ l, <[iA := dA']> l) w)) in *.
  rewrite bind_run, Hrun1 in E.
  assert (∀ evs, Forall (payloads_satisfy keeps_friends) evs →
            friends_kept w' (run evs w')) as Hlater.
  { intros evs Hevs. apply (run_kept friends_kept keeps_friends); [|done].
    apply handler_friends_kept. }
  assert (has_friend A B (users w')) as HAB.
  { assert (has_friend A B (users w1)) as H1 by by exists iA, dA'.
    apply (add_friend_friends_kept B A w1) in H1.
    destruct (users_update B (λ _, addToSet "friends" A) w1) as [[[]|] w2];
      cbn in *; by rewrite E. }
  split; [done|]. split; [intros evs Hevs; by apply Hlater|].
  split; [|apply add_to_set_present].
  destruct (find_user B (users w)) as [[iB dB]|] eqn:HfB.
  - intros HokB.
    set (dB1 := if decide (iB = iA) then dA' else dB).
    assert (find_user B (users w1) = Some (iB, dB1)) as HfB1.
    { cbn. by rewrite Hfind1, HfB. }
    assert (friends_ok dB1) as HokB1.
    { unfold dB1. by case_decide. }
    destruct (addToSet_friends_ok A dB1 HokB1) as [dB2 HdB2].
    pose proof (addToSet_friends _ _ _ HdB2) as (HuB & HsubB & HinB & _).
    rewrite (users_update_applied _ _ _ iB dB1 dB2) in E by done. cbn in E.
    assert (users w' = <[iB := dB2]> (<[iA := dA']> (users w))) as Hw'.
    { by rewrite E. }
    assert (<[iA := dA']> (users w) !! iB = Some dB1) as HiB1.
    { by apply list_find_Some in HfB1 as (? & _). }
    assert (has_friend B A (users w')) as HBA.
    { rewrite Hw'. exists iB, dB2. split; [|done].
      change (<[iA := dA']> (users w)) with (users w1).
      rewrite (find_user_insert_alike _ _ _ dB1), HfB1 by done.
      cbn. by rewrite decide_True. }
    split; [done|]. split; [intros evs Hevs; by apply Hlater|].
    intros HB HA'. pose proof HfB as (HiB & _)%list_find_Some.
    rewrite (addToSet_present B dA HB) in HdA'. injection HdA' as <-.
    assert (dB1 = dB) as HdB1.
    { unfold dB1. case_decide; [|done]. subst iB. congruence. }
    rewrite HdB1 in HdB2.
    rewrite (addToSet_present A dB HA') in HdB2. injection HdB2 as <-.
    rewrite Hw'. rewrite (list_insert_id (users w) iA dA) by done.
    by rewrite (list_insert_id (users w) iB dB) by done.
  - assert (find_user B (users w1) = None) as HfB1.
    { cbn. by rewrite Hfind1, HfB. }
    unfold users_update at 1 in E. rewrite HfB1 in E. cbn in E.
    split; [by rewrite E|]. exists dA'. split; [done|]. by rewrite E.
Qed.

(** ** Profiles *)

(** C2 (amended). [update_profile] writes to the user collection only,
    and there only to the record that the name of the connection
    finds: every other record is untouched, whatever the payload. When
    the connection is bound to a non-empty name that finds a record,
    and the field names of the payload are plain (no dot, no leading
    dollar sign, neither [_id] nor [__proto__]), the record is replaced
    by the payload laid over it: every field the payload names is set,
    whatever the field is, the username, the password digest and the
    friends list included, and every field the payload does not name
    keeps its value; so a payload that names only bio, avatar and
    email sets these and leaves all other fields as they were. The one
    exception is a payload whose username would add a key to the unique
    index that is in it already: then the store refuses the write and
    nothing changes. *)
Theorem update_profile_sets_named_fields w s data :
  let w' := exec (update_profile s data) w in
  (messages w' = messages w ∧ groups w' = groups w
   ∧ onlineUsers w' = onlineUsers w ∧ sockets w' = sockets w)
  ∧ (∀ j d, users w !! j = Some d →
       ∃ d', users w' !! j = Some d'
         ∧ (∀ me, bound w s me → find_user me (users w) ≠ Some (j, d) → d' = d))
  ∧ (∀ me i d,
       bound w s me → me ≠ "" → find_user me (users w) = Some (i, d) →
       plain_payload data →
       (data !! "username" = None →
          ¬ username_taken (new_keys d (data ∪ d)) (users w))
       ∧ if decide (username_taken (new_keys d (data ∪ d)) (users w))
         then w' = w
         else w' = log (Update Users) (with_users (λ l, <[i := data ∪ d]> l) w)
              ∧ (∀ k v, data !! k = Some v → user_field (users w') i k = Some v)
              ∧ (∀ k, data !! k = None → user_field (users w') i k = d !! k)).
Proof.
  cbn. split; [|split].
  - unfold exec, update_profile.
    destruct (when_named_cases w s (λ me, users_update me (set_fields data)))
      as [->|(me & Hb & _ & ->)]; [done|].
    by destruct (users_update_cases me (set_fields data) w)
      as [->|(i & d & d' & _ & _ & _ & ->)].
  - intros j d0 Hj. unfold exec, update_profile.
    destruct (when_named_cases w s (λ me, users_update me (set_fields data)))
      as [->|(me & Hb & _ & ->)]; [by exists d0|].
    destruct (users_update_cases me (set_fields data) w)
      as [->|(i & d & d' & Hu & _ & _ & ->)]; [by exists d0|].
    cbn. pose proof Hu as (Hi & _)%list_find_Some.
    destruct (decide (j = i)) as [->|Hne].
    + assert (d0 = d) as -> by congruence.
      exists d'. split.
      * apply list_lookup_insert_eq. by eapply lookup_lt_Some.
      * intros me' Hb' Hme'. unfold bound in *. congruence.
    + exists d0. by rewrite list_lookup_insert_ne.
  - intros me i d Hb Hme Hu Hp.
    pose proof Hu as (Hi & _)%list_find_Some.
    split.
    { intros Hname. rewrite new_keys_same by by rewrite lookup_union_r.
      unfold username_taken. by intros ?%Exists_nil. }
    unfold exec, update_profile. rewrite (when_named_bound _ _ me) by done.
    unfold users_update. rewrite Hu, set_fields_plain by done.
    destruct (decide _) as [Ht|Hfree]; [done|]. cbn.
    split; [done|]. unfold user_field.
    rewrite list_lookup_insert_eq by by eapply lookup_lt_Some. cbn.
    split.
    + intros k v Hk. by apply lookup_union_Some_l.
    + intros k Hk. by apply lookup_union_r.
Qed.

(** ** History *)

#[local] Instance by_timestamp_total : Total by_timestamp.
Proof. intros a b. unfold by_timestamp. lia. Qed.

(** X9. What [get_history] sends on a bound connection: the messages that
    answer the query of line 175, each once, in ascending timestamp
    order. For a group the query reads the field [toGroup]. *)
Lemma get_history_sorted w s me other isGroup :
  bound w s me → me ≠ "" →
  ∃ ms, emitted_by (get_history s other isGroup) w = [Emit s (chat_history ms)]
    ∧ Sorted by_timestamp ms
    ∧ ms ≡ₚ filter (λ m, history_query me other isGroup (msg_doc m)) (messages w).
Proof.
  tidy. intros Hb Hme.
  exists (merge_sort by_timestamp
            (filter (λ m, history_query me other isGroup (msg_doc m)) (messages w))).
  split; [|split].
  - apply emitted_by_app. unfold exec, get_history.
    rewrite (when_named_bound _ _ me) by done. reflexivity.
  - apply Sorted_merge_sort, by_timestamp_total.
  - apply merge_sort_Permutation.
Qed.

(** * Further properties of the handlers *)

(** ** Logging in *)

(** X1. A login never writes to a collection. With an unknown name, or
    a password the verifier rejects, it emits the bad-credentials
    error and nothing else changes; with a password the verifier
    accepts it binds the socket, emits [auth_success] and registers the
    socket under every name but [__proto__], for which line 92 makes no
    entry. When the stored password is not a string the verifier
    throws: the handler stops without any answer. *)
Theorem login_outcome w s u p e :
  let c := mkCredentials u p e false in
  let w' := exec (authenticate s c) w in
  (users w' = users w ∧ messages w' = messages w ∧ groups w' = groups w)
  ∧ match find_user u (users w) with
    | None => w' = log (Emit s (auth_error text_bad_credentials)) w
    | Some (_, d) =>
        match d !! "password" with
        | Some (VStr digest) =>
            if bcrypt_compare p digest
            then sockets w' = <[s := Some u]> (sockets w)
                 ∧ (u ≠ "__proto__" → onlineUsers w' = <[u := s]> (onlineUsers w))
                 ∧ (u = "__proto__" → onlineUsers w' = onlineUsers w)
                 ∧ Emit s (auth_success u) ∈ emitted_by (authenticate s c) w
            else w' = log (Emit s (auth_error text_bad_credentials)) w
        | _ => w' = w
        end
    end.
Proof.
  cbn. unfold exec, authenticate, users_findOne. unfold_M. cbn.
  destruct (find_user u (users w)) as [[i d]|] eqn:Hu; cbn; [|done].
  destruct (d !! "password") as [[| | |digest| |]|] eqn:Hp; cbn; try done.
  destruct (bcrypt_compare p digest) eqn:Hc; cbn; [|done].
  destruct (bind_connection_spec s u w) as [l Hl].
  unfold exec in Hl. rewrite Hl. cbn. split; [done|].
  split; [done|]. split; [|split].
  - intros Hne. unfold online_set. by rewrite decide_False.
  - by intros ->.
  - unfold emitted_by, exec, authenticate, users_findOne. unfold_M. cbn.
    rewrite Hu; cbn. rewrite Hp; cbn. rewrite Hc; cbn. rewrite Hl; cbn.
    rewrite drop_app_length. apply list_elem_of_here.
Qed.

(** X2. After a name that was free has been registered with password
    [p], a login under that name with password [p'] succeeds exactly
    when the verifier accepts [p'] against the digest of [p]: then the
    socket is bound, and registered unless the name is [__proto__];
    otherwise it gets the bad-credentials error and nothing else
    changes. *)
Theorem register_then_login w s1 s2 u p e1 p' e2 :
  find_user u (users w) = None →
  let w1 := exec (register_user s1 (mkCredentials u p e1 true)) w in
  let c' := mkCredentials u p' e2 false in
  let w2 := exec (authenticate s2 c') w1 in
  if bcrypt_compare p' (bcrypt_hash p)
  then bound w2 s2 u
       ∧ (u ≠ "__proto__" → onlineUsers w2 !! u = Some s2)
       ∧ Emit s2 (auth_success u) ∈ emitted_by (authenticate s2 c') w1
       ∧ users w2 = users w1
  else w2 = log (Emit s2 (auth_error text_bad_credentials)) w1.
Proof.
  intros Hfree w1 c' w2.
  pose proof (register_user_run s1 (mkCredentials u p e1 true) w) as Hw1.
  cbn in Hw1. rewrite Hfree in Hw1. fold w1 in Hw1.
  match type of Hw1 with
  | context [exec (bind_connection s1 ?u) ?w0] =>
      destruct (bind_connection_spec s1 u w0) as [l Hl]
  end.
  rewrite Hl in Hw1. cbn in Hw1.
  assert (find_user u (users w1)
          = Some (length (users w), new_user (mkCredentials u p e1 true))) as Hu.
  { rewrite Hw1; cbn. unfold find_user in *.
    rewrite list_find_app_r by done. cbn.
    rewrite decide_True; [done|]. unfold field_is.
    by change (new_user (mkCredentials u p e1 true) !! "username")
         with (Some (VStr u)). }
  assert (new_user (mkCredentials u p e1 true) !! "password"
          = Some (VStr (bcrypt_hash p))) as Hp by done.
  assert (w2 = (if bcrypt_compare p' (bcrypt_hash p)
                then exec (bind_connection s2 u) w1
                else log (Emit s2 (auth_error text_bad_credentials)) w1)) as Hw2.
  { unfold w2, exec, authenticate, users_findOne. unfold_M. cbn.
    rewrite Hu; cbn. rewrite Hp; cbn.
    by destruct (bcrypt_compare p' (bcrypt_hash p)). }
  destruct (bcrypt_compare p' (bcrypt_hash p)) eqn:Hc; [|done].
  destruct (bind_connection_spec s2 u w1) as [l' Hl'].
  rewrite Hl' in Hw2.
  split; [|split; [|split]].
  - unfold bound. rewrite Hw2; cbn. by rewrite lookup_insert_eq.
  - intros Hne. rewrite Hw2; cbn. by apply online_set_eq.
  - rewrite (emitted_by_app _ _ (Emit s2 (auth_success u) :: l')).
    + apply list_elem_of_here.
    + fold w2. by rewrite Hw2.
  - by rewrite Hw2.
Qed.

(** ** The guards *)

(** X3. A socket without a name (never authenticated, or bound to the
    empty username) gets nothing done by the guarded handlers: a friend
    request, an acceptance, a profile update, a chat message, a group
    creation and a history request leave the world as it was, trace
    included, and its disconnect only removes the socket. *)
Theorem unnamed_socket_ignored w s :
  truthy_name (mjoin (sockets w !! s)) = false →
  (∀ t, exec (send_request s t) w = w)
  ∧ (∀ f, exec (accept_request s f) w = w)
  ∧ (∀ data, exec (update_profile s data) w = w)
  ∧ (∀ data now, exec (chat_message s data now) w = w)
  ∧ (∀ n, exec (create_group s n) w = w)
  ∧ (∀ o g, exec (get_history s o g) w = w)
  ∧ step (on_disconnect s) w = with_sockets (λ m, delete s m) w.
Proof.
  intros Hn.
  repeat split; intros;
    unfold step, handler, exec, send_request, accept_request, update_profile,
      chat_message, create_group, get_history, disconnect;
    rewrite ?bind_run, when_named_unnamed by done; done.
Qed.

(** ** Groups *)

Lemma insert_group_run w s me n :
  exec (insert_group s me n) w
  = emitting (with_groups (λ l, l ++ [mkGroup n me [me]]) w)
      [Insert Groups;
       Emit s (update_group_list (member_groups me (groups w ++ [mkGroup n me [me]])))].
Proof.
  unfold exec, insert_group, groups_insert, groups_find_member. unfold_M. cbn.
  unfold log, emitting, with_groups; cbn. by rewrite <- app_assoc.
Qed.



(** X6. [add_member] for a name that no group has: a socket with a
    name is dropped without effect, but a socket without a name passes
    the admin test ([undefined !== undefined] is false). No group is
    changed then either, and what [onlineUsers] has under the name in
    the request, if anything, is sent the groups of that name. *)
Theorem add_member_missing_group w s n x :
  find_group n (groups w) = None →
  let w' := exec (add_member s n x) w in
  match mjoin (sockets w !! s) with
  | Some _ => w' = w
  | None =>
      ∃ gs, w' = emitting w
                   match online_get (onlineUsers w) x with
                   | Some v => [push v (update_group_list gs)]
                   | None => []
                   end
            ∧ gs ≡ₚ filter (λ g, x ∈ members g) (groups w)
  end.
Proof.
  intros Hg. cbn.
  unfold exec, add_member, groups_findOne, groups_add_member, groups_find_member.
  unfold_M. cbn. rewrite Hg. cbn.
  destruct (mjoin (sockets w !! s)) as [u|]; cbn.
  - by rewrite decide_True.
  - rewrite decide_False by (intros H; by apply H). rewrite Hg. cbn.
    exists (member_groups x (groups w)). split; [|apply member_groups_perm].
    destruct (online_get (onlineUsers w) x); cbn; [done|]. by rewrite emitting_nil.
Qed.

(** ** Friend requests *)

(** X7. [send_request] on a bound socket has exactly one effect, one
    emission: the no-such-user error when the target has no record, the
    cannot-add-yourself error when the record found carries the
    sender's name, and otherwise what the read of [onlineUsers] under
    the target's name decides: [receive_request] with the sender's name
    to the socket registered there, an emission that reaches no socket
    when the name has no entry but names a property of
    [Object.prototype], and the not-connected error to the sender when
    the read yields [undefined]. *)
Theorem send_request_outcome w s me t :
  bound w s me → me ≠ "" →
  exec (send_request s t) w
  = log (match find_user t (users w) with
         | None => Emit s (error_msg text_no_such_user)
         | Some (_, d) =>
             if decide (d !! "username" = Some (VStr me))
             then Emit s (error_msg text_cannot_add_self)
             else match online_get (onlineUsers w) t with
                  | Some (socket_id id) => Emit id (receive_request me)
                  | Some inherited => EmitNowhere (receive_request me)
                  | None => Emit s (error_msg text_not_connected)
                  end
         end) w.
Proof.
  tidy. intros Hb Hme.
  unfold exec, send_request. rewrite (when_named_bound _ _ me) by done.
  unfold users_findOne. unfold_M. cbn.
  destruct (find_user t (users w)) as [[i d]|]; cbn; [|done].
  destruct (decide _); cbn; [done|].
  by destruct (online_get (onlineUsers w) t) as [[]|].
Qed.

(** ** Presence *)

(** X8. A socket registered under [u] that authenticates again under
    another name keeps [u]'s registry entry: the entry still names
    this socket, and when the socket disconnects only the new name is
    unregistered, so [u] stays registered to a closed socket. *)
Theorem rename_leaves_stale_entry w s u c :
  onlineUsers w !! u = Some s →
  username c ≠ u →
  Emit s (auth_success (username c)) ∈ emitted_by (authenticate s c) w →
  let w1 := exec (authenticate s c) w in
  let w2 := step (on_disconnect s) w1 in
  onlineUsers w1 !! u = Some s
  ∧ onlineUsers w2 !! u = Some s
  ∧ onlineUsers w2 !! username c = (if String.eqb (username c) "" then Some s else None)
  ∧ sockets w2 !! s = None.
Proof.
  intros Hu Hne Hok w1 w2.
  destruct (authenticate_cases s c w) as [(l & E & Hl)|[Hs1 Ho1]].
  { exfalso. apply (Hl s (username c)).
    by rewrite (emitted_by_app _ _ l) in Hok by by rewrite E. }
  fold w1 in Hs1, Ho1.
  assert (onlineUsers w1 !! u = Some s) as Hu1.
  { rewrite Ho1, online_set_ne; done. }
  assert (bound w1 s (username c)) as Hb.
  { unfold bound. by rewrite Hs1, lookup_insert_eq. }
  split; [done|].
  destruct (String.eqb_spec (username c) "") as [He|He].
  - assert (w2 = with_sockets (λ m, delete s m) w1) as ->.
    { unfold w2, step, exec, handler, disconnect.
      rewrite bind_run, when_named_unnamed; [done|].
      unfold bound in Hb. rewrite Hb, He. done. }
    cbn. split; [done|]. split; [|apply lookup_delete_eq].
    rewrite Ho1, He. by apply online_set_eq.
  - assert (w2 = with_sockets (λ m, delete s m)
                   (with_online (λ m, delete (username c) m) w1)) as ->.
    { unfold w2, step, exec, handler, disconnect.
      by rewrite bind_run, (when_named_bound _ _ (username c)) by done. }
    cbn. split; [by rewrite lookup_delete_ne|].
    split; apply lookup_delete_eq.
Qed.

(** ** Conversations *)

Lemma get_history_run w s me other isGroup :
  bound w s me → me ≠ "" →
  exec (get_history s other isGroup) w
  = log (Emit s (chat_history
           (merge_sort by_timestamp
              (filter (λ m, history_query me other isGroup (msg_doc m))
                      (messages w))))) w.
Proof.
  tidy. intros Hb Hme. unfold exec, get_history.
  by rewrite (when_named_bound _ _ me) by done.
Qed.

Lemma direct_query_sym a b d : direct_query a b d ↔ direct_query b a d.
Proof. tidy. unfold direct_query. tauto. Qed.

(** X10. The two ends of a direct conversation are sent the same
    history: what [a] gets for [b] is, message for message and in the
    same order, what [b] gets for [a]. *)
Theorem direct_history_shared w s1 s2 a b :
  bound w s1 a → a ≠ "" → bound w s2 b → b ≠ "" →
  ∃ ms, emitted_by (get_history s1 b false) w = [Emit s1 (chat_history ms)]
      ∧ emitted_by (get_history s2 a false) w = [Emit s2 (chat_history ms)].
Proof.
  tidy. intros Ha Hane Hb Hbne.
  exists (merge_sort by_timestamp
            (filter (λ m, history_query a b false (msg_doc m)) (messages w))).
  split.
  - apply emitted_by_app. by rewrite (get_history_run _ _ a).
  - assert (filter (λ m, history_query b a false (msg_doc m)) (messages w)
            = filter (λ m, history_query a b false (msg_doc m)) (messages w)) as Hf.
    { apply list_filter_iff. intros m. apply direct_query_sym. }
    apply emitted_by_app. rewrite (get_history_run _ _ b) by done.
    by rewrite Hf.
Qed.

(** X11. A message whose payload has plain field names can be read back
    by both ends whether or not the recipient was registered when it
    was sent: after [chat_message] the history the sender gets for the
    recipient contains the stored message, and so does the history any
    socket bound to the recipient's name gets for the sender. *)
Theorem sent_message_in_both_histories w s a data now :
  bound w s a → a ≠ "" →
  plain_payload (fields data) →
  let w' := exec (chat_message s data now) w in
  let msg := mkMessage (chat_doc data) a now in
  (∃ ms, emitted_by (get_history s (to data) false) w' = [Emit s (chat_history ms)]
         ∧ msg ∈ ms)
  ∧ (∀ s2, bound w s2 (to data) → to data ≠ "" →
       ∃ ms, emitted_by (get_history s2 a false) w' = [Emit s2 (chat_history ms)]
             ∧ msg ∈ ms).
Proof.
  intros Hb Ha Hp w' msg.
  destruct (chat_message_plain w s a data now Hb Ha)
    as (Hsock & Hplain).
  destruct (Hplain Hp) as [_ Hm]. fold w' msg in Hsock, Hm.
  assert (∀ s0 u, bound w s0 u → bound w' s0 u) as Hbound.
  { intros s0 u. unfold bound. by rewrite Hsock. }
  assert (direct_query a (to data) (msg_doc msg)) as Hq.
  { left. unfold field_is, msg_doc, msg, chat_doc; cbn.
    rewrite lookup_insert_ne, lookup_insert_eq by done.
    rewrite !lookup_insert_ne, lookup_insert_eq by done. done. }
  assert (∀ me other, direct_query me other (msg_doc msg) →
    msg ∈ merge_sort by_timestamp
            (filter (λ m, history_query me other false (msg_doc m)) (messages w')))
    as Hin.
  { intros me other Hmo. rewrite merge_sort_Permutation.
    apply list_elem_of_filter. split; [done|]. rewrite Hm.
    apply elem_of_app. right. apply list_elem_of_here. }
  split.
  - eexists. split.
    + apply emitted_by_app. by rewrite (get_history_run _ _ a) by auto.
    + by apply Hin.
  - intros s2 Hb2 Hne. eexists. split.
    + apply emitted_by_app. by rewrite (get_history_run _ _ (to data)) by auto.
    + apply Hin. by apply direct_query_sym.
Qed.

(** ** What the store keeps *)

#[local] Instance keys_unique_preorder : PreOrder keys_unique.
Proof. split; unfold keys_unique; [by intros w|intros w1 w2 w3; eauto]. Qed.

Lemma keys_unique_same w w' : users w' = users w → keys_unique w w'.
Proof. tidy. unfold keys_unique. by intros ->. Qed.

Lemma users_insert_keys d : stable keys_unique (users_insert d).
Proof.
  tidy. intros w. unfold users_insert. destruct (decide _) as [|Hfree]; [done|].
  intros Hnd; cbn. rewrite username_keys_app. apply NoDup_app.
  split; [done|]. split.
  - intros k Hk Hk'. apply Hfree. apply Exists_exists. exists k. split; [|done].
    rewrite username_keys_cons in Hk'. by rewrite app_nil_r in Hk'.
  - rewrite username_keys_cons, app_nil_r. apply NoDup_index_keys.
Qed.

Lemma users_update_keys u f : stable keys_unique (users_update u f).
Proof.
  tidy. intros w.
  destruct (users_update_cases u f w) as [->|(i & d & d' & Hu & _ & Hfree & ->)];
    [done|].
  apply list_find_Some in Hu as (Hi & _).
  intros Hnd; cbn. by apply username_keys_insert with d.
Qed.

Lemma handler_keys_unique ev : stable keys_unique (handler ev).
Proof.
  apply (handler_stable keys_unique (λ _, True)).
  - intros e w. by apply keys_unique_same.
  - intros f w. by apply keys_unique_same.
  - intros f w. by apply keys_unique_same.
  - intros m w. apply keys_unique_same.
    by destruct (messages_insert_cases m w) as [->| ->].
  - apply users_insert_keys.
  - intros u x. apply users_update_keys.
  - intros u data _. apply users_update_keys.
  - intros n me w. by apply keys_unique_same.
  - intros n x w. apply keys_unique_same.
    by destruct (groups_add_member_cases n x w) as [->|(? & ? & _ & ->)].
  - by destruct ev.
Qed.

Lemma index_keys_nonempty v : v ≠ Some (VArr []) → ∃ k, k ∈ index_keys v.
Proof.
  tidy. intros Hv. destruct v as [[| | | | |l]|];
    try (eexists; apply list_elem_of_here).
  destruct l as [|x l]; [done|]. exists (Some (VStr x)).
  cbn [index_keys]. apply list_elem_of_fmap. exists x. split; [done|].
  apply elem_of_remove_dups, list_elem_of_here.
Qed.

(** X12. In every reachable world the unique index on [username] holds
    no key twice: the index of line 22 holds through registration,
    friend acceptance and profile updates, whatever the payloads. So a
    lookup by name has at most one record to find, and two records with
    the same username, unless it is the empty array, which has no key
    in the index, are one record. *)
Theorem usernames_unique w :
  reachable w →
  NoDup (username_keys (users w))
  ∧ (∀ u i j d d', users w !! i = Some d → users w !! j = Some d' →
       field_is "username" u d → field_is "username" u d' → i = j)
  ∧ (∀ i j d d', users w !! i = Some d → users w !! j = Some d' →
       d !! "username" = d' !! "username" → d !! "username" ≠ Some (VArr []) →
       i = j).
Proof.
  intros Hw.
  assert (NoDup (username_keys (users w))) as Hnd.
  { induction Hw as [|w ev _ IH _]; [apply NoDup_nil_2|].
    by apply (handler_keys_unique ev w). }
  split; [done|]. split.
  - intros u i j d d' Hi Hj Hd Hd'.
    apply (username_keys_lookup (users w) i j d d' (Some (VStr u))); try done;
      by apply key_of_name.
  - intros i j d d' Hi Hj Hsame Hne.
    destruct (index_keys_nonempty _ Hne) as [k Hk].
    apply (username_keys_lookup (users w) i j d d' k); try done.
    by rewrite <- Hsame.
Qed.

#[local] Instance users_persist_preorder : PreOrder users_persist.
Proof. split; unfold users_persist; [by intros w|intros w1 w2 w3; lia]. Qed.

Lemma users_persist_same w w' : users w' = users w → users_persist w w'.
Proof. tidy. unfold users_persist. by intros ->. Qed.

Lemma handler_users_persist ev : stable users_persist (handler ev).
Proof.
  apply (handler_stable users_persist (λ _, True)).
  - intros e w. by apply users_persist_same.
  - intros f w. by apply users_persist_same.
  - intros f w. by apply users_persist_same.
  - intros m w. apply users_persist_same.
    by destruct (messages_insert_cases m w) as [->| ->].
  - intros d w. destruct (users_insert_cases d w) as [->| ->]; [done|].
    unfold users_persist; cbn. rewrite length_app. lia.
  - intros u x w.
    destruct (users_update_cases u (λ _, addToSet "friends" x) w)
      as [->|(i & d & d' & _ & _ & _ & ->)]; [done|].
    unfold users_persist; cbn. by rewrite length_insert.
  - intros u data _ w.
    destruct (users_update_cases u (set_fields data) w)
      as [->|(i & d & d' & _ & _ & _ & ->)]; [done|].
    unfold users_persist; cbn. by rewrite length_insert.
  - intros n me w. by apply users_persist_same.
  - intros n x w. apply users_persist_same.
    by destruct (groups_add_member_cases n x w) as [->|(? & ? & _ & ->)].
  - by destruct ev.
Qed.

#[local] Instance users_keep_preorder : PreOrder users_keep.
Proof.
  split.
  - intros w i d Hi. by exists d.
  - intros w1 w2 w3 H12 H23 i d Hi.
    destruct (H12 i d Hi) as (d2 & Hi2 & Hk2 & Hf2).
    destruct (H23 i d2 Hi2) as (d3 & Hi3 & Hk3 & Hf3).
    exists d3. split; [done|]. split.
    + intros k Hk. by rewrite Hk3, Hk2.
    + by etrans.
Qed.

Lemma users_keep_same w w' : users w' = users w → users_keep w w'.
Proof. tidy. intros E i d Hi. exists d. by rewrite E. Qed.

Lemma add_friend_users_keep u x :
  stable users_keep (users_update u (λ _, addToSet "friends" x)).
Proof.
  tidy. intros w.
  destruct (users_update_cases u (λ _, addToSet "friends" x) w)
    as [->|(i & d & d' & Hu & Hf & _ & ->)]; [done|].
  apply addToSet_friends in Hf as (_ & Hsub & _ & _ & Hkeep).
  apply list_find_Some in Hu as (Hi & _).
  intros j d0 Hj. cbn. destruct (decide (j = i)) as [->|Hne].
  - assert (d0 = d) as -> by congruence. exists d'.
    split; [|done]. apply list_lookup_insert_eq. by eapply lookup_lt_Some.
  - exists d0. by rewrite list_lookup_insert_ne.
Qed.

(** Handlers are taken apart down to their store operations and
    emissions, which [leaf] has to settle. *)
Ltac handler_steps leaf :=
  unfold register_user, bind_connection, insert_group, push_if_online,
    users_findOne, groups_findOne, groups_find_member, messages_find_sorted,
    socket_username;
  unfold broadcastUserList, users_findOne;
  repeat lazymatch goal with
         | |- stable _ (mret _) => apply stable_ret; apply _
         | |- stable _ throw => apply stable_throw; apply _
         | |- stable _ (gets _) => apply stable_gets; apply _
         | |- stable _ (detached _) => apply stable_detached
         | |- stable _ (when_named _ _) =>
             apply stable_when_named; [apply _|intros ?]
         | |- stable _ (try_catch _ _) => apply stable_try_catch; [apply _| |]
         | |- stable _ (mapM _ _) => apply stable_mapM; [apply _|intros ?]
         | |- stable _ (mbind _ _) => apply stable_bind; [apply _| |intros ?]
         | |- stable _ (match ?x with _ => _ end) => destruct x
         | |- stable _ _ => leaf
         end.

(** A store operation or emission that leaves alone the collection a
    relation reads; [same] says that the relation holds then. *)
Ltac frame_leaf same :=
  let w := fresh "w" in
  intros w;
  lazymatch goal with
  | |- _ _ (users_insert ?d _).2 =>
      destruct (users_insert_cases d w) as [->| ->]; by apply same
  | |- _ _ (users_update ?u ?f _).2 =>
      destruct (users_update_cases u f w) as [->|(?&?&?&_&_&_&->)]; by apply same
  | |- _ _ (groups_add_member ?n ?x _).2 =>
      destruct (groups_add_member_cases n x w) as [->|(?&?&_&->)]; by apply same
  | |- _ _ (messages_insert ?m _).2 =>
      destruct (messages_insert_cases m w) as [->| ->]; by apply same
  | |- _ => by apply same
  end.

Lemma handler_users_keep ev :
  ¬ is_update_profile ev → stable users_keep (handler ev).
Proof.
  destruct ev; cbn [handler is_update_profile]; intros Hev; try done;
    unfold authenticate, send_request, accept_request, get_profile,
      chat_message, create_group, add_member, get_history, disconnect;
    handler_steps
      ltac:(first [ apply add_friend_users_keep
                  | frame_leaf users_keep_same
                  | idtac ]).
  all: intros w; destruct (users_insert_cases (new_user c) w) as [->| ->];
    [done|].
  all: intros i d Hi; exists d; split; [by apply lookup_app_l_Some|done].
Qed.

Lemma run_kept_if (R : relation World) `{!PreOrder R} (Q : event → Prop) :
  (∀ ev, Q ev → stable R (handler ev)) →
  ∀ evs w, Forall Q evs → R w (run evs w).
Proof.
  intros Hstep evs w Hevs. revert w.
  induction Hevs as [|ev evs Hev _ IH]; intros w; cbn; [done|].
  etrans; [|apply IH]. by apply Hstep.
Qed.

#[local] Instance messages_grow_preorder : PreOrder messages_grow.
Proof. split; unfold messages_grow; [by intros w|intros w1 w2 w3; by etrans]. Qed.

#[local] Instance messages_same_preorder : PreOrder messages_same.
Proof. split; unfold messages_same; [by intros w|intros w1 w2 w3; congruence]. Qed.

Lemma messages_grow_same w w' : messages w' = messages w → messages_grow w w'.
Proof. tidy. unfold messages_grow. by intros ->. Qed.

Lemma handler_messages_grow ev : stable messages_grow (handler ev).
Proof.
  apply (handler_stable messages_grow (λ _, True)).
  - intros e w. by apply messages_grow_same.
  - intros f w. by apply messages_grow_same.
  - intros f w. by apply messages_grow_same.
  - intros m w. destruct (messages_insert_cases m w) as [->| ->]; [done|].
    by apply prefix_app_r.
  - intros d w. apply messages_grow_same.
    by destruct (users_insert_cases d w) as [->| ->].
  - intros u x w. apply messages_grow_same.
    by destruct (users_update_cases u (λ _, addToSet "friends" x) w)
      as [->|(? & ? & ? & _ & _ & _ & ->)].
  - intros u data _ w. apply messages_grow_same.
    by destruct (users_update_cases u (set_fields data) w)
      as [->|(? & ? & ? & _ & _ & _ & ->)].
  - intros n me w. by apply messages_grow_same.
  - intros n x w. apply messages_grow_same.
    by destruct (groups_add_member_cases n x w) as [->|(? & ? & _ & ->)].
  - by destruct ev.
Qed.

Lemma handler_messages_same ev :
  ¬ is_chat_message ev → stable messages_same (handler ev).
Proof.
  destruct ev; cbn [handler is_chat_message]; intros Hev; try done;
    unfold authenticate, send_request, accept_request, get_profile,
      update_profile, create_group, add_member, get_history, disconnect;
    handler_steps ltac:(frame_leaf (λ (w w' : World) (H : messages w' = messages w), H)).
Qed.

(** X13. Nothing is ever taken out of the store. Over any sequence of
    events the stored messages stay, unchanged and in place, as a prefix
    of the later message collection, and the user collection does not
    get shorter. Events other than [chat_message] leave the messages
    exactly as they were, and events other than [update_profile] leave
    every user record in its place with every field but the friends
    list as it was, while the friends list keeps all its names. *)
Theorem store_only_grows evs w :
  messages w `prefix_of` messages (run evs w)
  ∧ (length (users w) ≤ length (users (run evs w)))%nat
  ∧ (Forall (λ ev, ¬ is_chat_message ev) evs → messages (run evs w) = messages w)
  ∧ (Forall (λ ev, ¬ is_update_profile ev) evs →
       ∀ i d, users w !! i = Some d →
         ∃ d', users (run evs w) !! i = Some d'
           ∧ (∀ k, k ≠ "friends" → d' !! k = d !! k)
           ∧ friends_of d ⊆ friends_of d').
Proof.
  split; [|split; [|split]].
  - apply (run_kept_if messages_grow (λ _, True)).
    + intros ev _. apply handler_messages_grow.
    + by apply Forall_true.
  - apply (run_kept_if users_persist (λ _, True)).
    + intros ev _. apply handler_users_persist.
    + by apply Forall_true.
  - apply (run_kept_if messages_same (λ ev, ¬ is_chat_message ev)).
    apply handler_messages_same.
  - apply (run_kept_if users_keep (λ ev, ¬ is_update_profile ev)).
    apply handler_users_keep.
Qed.

#[local] Instance group_names_grow_preorder : PreOrder group_names_grow.
Proof. split; unfold group_names_grow; [by intros w|intros w1 w2 w3; by etrans]. Qed.

Lemma group_names_grow_same w w' : groups w' = groups w → group_names_grow w w'.
Proof. tidy. unfold group_names_grow. by intros ->. Qed.

Lemma handler_group_names_grow ev : stable group_names_grow (handler ev).
Proof.
  apply (handler_stable group_names_grow (λ _, True)).
  - intros e w. by apply group_names_grow_same.
  - intros f w. by apply group_names_grow_same.
  - intros f w. by apply group_names_grow_same.
  - intros m w. apply group_names_grow_same.
    by destruct (messages_insert_cases m w) as [->| ->].
  - intros d w. apply group_names_grow_same.
    by destruct (users_insert_cases d w) as [->| ->].
  - intros u x w. apply group_names_grow_same.
    by destruct (users_update_cases u (λ _, addToSet "friends" x) w)
      as [->|(? & ? & ? & _ & _ & _ & ->)].
  - intros u data _ w. apply group_names_grow_same.
    by destruct (users_update_cases u (set_fields data) w)
      as [->|(? & ? & ? & _ & _ & _ & ->)].
  - intros n me w. unfold group_names_grow; cbn. rewrite fmap_app.
    by apply prefix_app_r.
  - intros n x w.
    destruct (groups_add_member_cases n x w) as [->|(i & g & Hg & ->)]; [done|].
    apply list_find_Some in Hg as (Hi & _).
    unfold group_names_grow; cbn. rewrite list_fmap_insert; cbn.
    rewrite list_insert_id; [done|]. by rewrite list_lookup_fmap, Hi.
  - by destruct ev.
Qed.

(** X14. The name of a group is checked once, by the lookup of line
    161; [db.groups] has no unique index. Lines 162-163 append the
    group to whatever the collection holds by the time they run: in a
    collection without two groups of one name, the names stay apart
    exactly when no group has the new name at that moment. No event
    removes or renames a group. *)
Theorem group_name_checked_once w s me n :
  groups (exec (insert_group s me n) w) = groups w ++ [mkGroup n me [me]]
  ∧ (NoDup (name <$> groups w) →
       (NoDup (name <$> groups (exec (insert_group s me n) w))
        ↔ find_group n (groups w) = None))
  ∧ (∀ ev, (name <$> groups w) `prefix_of` (name <$> groups (step ev w))).
Proof.
  rewrite insert_group_run. cbn. split; [done|]. split.
  - intros Hnd. rewrite fmap_app. cbn. split.
    + intros (_ & Hsep & _)%NoDup_app. apply list_find_None, Forall_forall.
      intros g Hg Hn. apply (Hsep n); [|apply list_elem_of_here].
      apply list_elem_of_fmap. by exists g.
    + intros Hn%list_find_None. rewrite Forall_forall in Hn.
      apply NoDup_app. split; [done|]. split; [|apply NoDup_singleton].
      intros m (g & -> & Hg)%list_elem_of_fmap [= Hm]%list_elem_of_singleton.
      by apply (Hn g).
  - intros ev. apply (handler_group_names_grow ev w).
Qed.

(** ** Uploads *)

Lemma pretty_N_char_no_dash x : pretty_N_char x ≠ "-"%char.
Proof. tidy. unfold pretty_N_char. by repeat case_match. Qed.

Lemma pretty_N_go_no_dash x s : no_dash s → no_dash (pretty_N_go x s).
Proof.
  tidy. revert s. induction (N.lt_wf_0 x) as [x _ IH]. intros s Hs.
  destruct (decide (0 < x)%N) as [Hx|Hx].
  - rewrite pretty_N_go_step by done. apply IH.
    + by apply N.div_lt.
    + split; [apply pretty_N_char_no_dash|done].
  - assert (x = 0%N) as -> by lia. by rewrite pretty_N_go_0.
Qed.

Lemma pretty_N_no_dash (x : N) : no_dash (pretty x).
Proof.
  tidy. unfold pretty, pretty_N. case_decide.
  - by split.
  - by apply pretty_N_go_no_dash.
Qed.

(** The first dash of [a-r] ends the dash-free part [a]. *)
Lemma dash_separates a a' r r' :
  no_dash a → no_dash a' →
  a +:+ "-" +:+ r = a' +:+ "-" +:+ r' → a = a' ∧ r = r'.
Proof.
  tidy. revert a'. induction a as [|c a IH]; intros [|c' a'] Ha Ha' Heq;
    simpl in *.
  - injection Heq as Heq. simpl in Heq. by subst.
  - injection Heq as Hc _. destruct Ha' as [Hc' _]. by subst.
  - injection Heq as Hc _. destruct Ha as [Hc' _]. by subst.
  - injection Heq as -> Hrest.
    destruct (IH a' (proj2 Ha) (proj2 Ha') Hrest) as [-> ->]. done.
Qed.

(** X15. The upload route answers 400 when the request carries no file.
    Otherwise both paths of the answer are the stored name under
    [/uploads/], and two uploads are stored under the same name only
    if they arrive in the same millisecond with the same original
    name: the clock prefix ends at the first dash. *)
Theorem upload_names_apart :
  (∀ now, upload now None = upload_refused)
  ∧ (∀ n1 f1 n2 f2, stored_filename n1 f1 = stored_filename n2 f2 →
       n1 = n2 ∧ originalname f1 = originalname f2)
  ∧ (∀ n1 f1 n2 f2 p a1 t1 a2 t2,
       upload n1 (Some f1) = upload_done p a1 t1 →
       upload n2 (Some f2) = upload_done p a2 t2 →
       a1 = p ∧ a2 = p ∧ n1 = n2 ∧ originalname f1 = originalname f2).
Proof.
  tidy.
  assert (∀ n1 f1 n2 f2, stored_filename n1 f1 = stored_filename n2 f2 →
            n1 = n2 ∧ originalname f1 = originalname f2) as Hinj.
  { intros n1 f1 n2 f2 Heq. unfold stored_filename in Heq.
    apply dash_separates in Heq as [Hn Ho]; [|apply pretty_N_no_dash..].
    split; [|done]. by apply (inj pretty). }
  split; [intros now; reflexivity|]. split; [exact Hinj|].
  intros n1 f1 n2 f2 p a1 t1 a2 t2 H1 H2.
  unfold upload in H1, H2.
  injection H1 as Hp1 Ha1 _. injection H2 as Hp2 Ha2 _.
  split; [congruence|]. split; [congruence|].
  apply Hinj. rewrite <- Hp2 in Hp1. by apply (inj (String.append "/uploads/")) in Hp1.
Qed.

(** ** Presence snapshots *)

Lemma friends_of_list x d :
  x ∈ friends_of d → d !! "friends" = Some (VArr (friends_of d)).
Proof.
  tidy. unfold friends_of.
  destruct (d !! "friends") as [[]|]; try (by intros ?%not_elem_of_nil); done.
Qed.

(** [broadcastUserList] for a user whose friends field is a list. *)
Lemma broadcastUserList_run w s me i d l :
  bound w s me → me ≠ "" →
  find_user me (users w) = Some (i, d) →
  d !! "friends" = Some (VArr l) →
  broadcastUserList s w
  = (Some (), log (Emit s (update_user_list (presence_of (onlineUsers w) l))) w).
Proof.
  tidy. intros Hb Hme Hu Hf. unfold broadcastUserList.
  rewrite (when_named_bound _ _ me) by done.
  unfold users_findOne. unfold_M. cbn. rewrite Hu; cbn. by rewrite Hf.
Qed.

(** The two updates of [accept_request] when both records take them. *)
Lemma accept_request_updates w A B iA dA iB dB :
  find_user A (users w) = Some (iA, dA) →
  find_user B (users w) = Some (iB, dB) →
  friends_ok dA → friends_ok dB →
  ∃ us dA2,
    (users_update A (λ _, addToSet "friends" B);;
     users_update B (λ _, addToSet "friends" A)) w
    = (Some (), emitting (with_users (λ _, us) w) [Update Users; Update Users])
    ∧ find_user A us = Some (iA, dA2)
    ∧ B ∈ friends_of dA2.
Proof.
  tidy. intros HfA HfB HokA HokB.
  destruct (accept_request_first w A B iA dA HfA HokA)
    as (dA' & HdA' & Hrun1 & HfA1 & Hfind1 & HinA & HokA').
  set (w1 := log (Update Users) (with_users (λ l, <[iA := dA']> l) w)) in *.
  set (dB1 := if decide (iB = iA) then dA' else dB).
  assert (find_user B (users w1) = Some (iB, dB1)) as HfB1.
  { cbn. by rewrite Hfind1, HfB. }
  assert (friends_ok dB1) as HokB1.
  { unfold dB1. by case_decide. }
  destruct (addToSet_friends_ok A dB1 HokB1) as [dB2 HdB2].
  pose proof (addToSet_friends _ _ _ HdB2) as (HuB & HsubB & HinB & _).
  pose proof HfB1 as (HiB1 & _)%list_find_Some.
  exists (<[iB := dB2]> (<[iA := dA']> (users w))),
         (if decide (iA = iB) then dB2 else dA').
  split; [|split].
  - rewrite bind_run, Hrun1.
    rewrite (users_update_applied _ _ _ iB dB1 dB2) by done.
    unfold w1, log, emitting, with_users; cbn. by rewrite <- app_assoc.
  - change (<[iA := dA']> (users w)) with (users w1).
    rewrite (find_user_insert_alike _ _ _ dB1) by done.
    cbn. by rewrite HfA1.
  - case_decide as Hi; [|done]. apply HsubB. unfold dB1.
    by rewrite decide_True.
Qed.

(** X16. When accepter and requester both have a record that takes the
    set-addition, [accept_request] first makes its two updates and
    then sends the accepter's refreshed friends list on the accepter's
    own socket; that list has the requester in it, flagged online
    exactly when the read of [onlineUsers] under the requester's name
    is truthy: an entry, or a name of a property of
    [Object.prototype]. *)
Theorem accept_request_pushes_snapshot w s A B iA dA iB dB :
  bound w s A → A ≠ "" →
  find_user A (users w) = Some (iA, dA) →
  find_user B (users w) = Some (iB, dB) →
  friends_ok dA → friends_ok dB →
  ∃ l rest flag,
    emitted_by (accept_request s B) w = Update Users :: Update Users :: rest
    ∧ Emit s (update_user_list (presence_of (onlineUsers w) l)) ∈ rest
    ∧ (B, flag) ∈ presence_of (onlineUsers w) l
    ∧ (flag = true ↔ is_Some (onlineUsers w !! B) ∨ B ∈ object_prototype_names).
Proof.
  tidy. intros Hb HA HfA HfB HokA HokB.
  destruct (accept_request_updates w A B iA dA iB dB) as (us & dA2 & Hrun & HfA2 & HB);
    [done..|].
  set (w2 := emitting (with_users (λ _, us) w) [Update Users; Update Users]) in *.
  assert (broadcastUserList s w2
          = (Some (), log (Emit s (update_user_list
                                     (presence_of (onlineUsers w) (friends_of dA2)))) w2))
    as Hpush.
  { apply (broadcastUserList_run w2 s A iA dA2); [done|done|done|].
    by apply (friends_of_list B). }
  assert (∃ rest, exec (accept_request s B) w
            = emitting w2 (Emit s (update_user_list
                             (presence_of (onlineUsers w) (friends_of dA2))) :: rest))
    as [rest E].
  { unfold exec, accept_request. rewrite (when_named_bound _ _ A) by done.
    rewrite !bind_run.
    rewrite bind_run in Hrun.
    destruct (users_update A (λ _, addToSet "friends" B) w) as [[[]|] w1]; [|done].
    rewrite bind_run.
    destruct (users_update B (λ _, addToSet "friends" A) w1) as [[[]|] w2']; [|done].
    injection Hrun as ->.
    rewrite bind_run. unfold detached at 1. rewrite Hpush. cbn.
    unfold gets. rewrite bind_run; cbn.
    destruct (online_get (onlineUsers w) B) as [[id|]|]; cbn; [|by exists []..].
    rewrite bind_run; cbn.
    destruct (sockets w !! id); cbn; [|by exists []].
    unfold detached.
    match goal with
    | |- context [broadcastUserList id ?w'] =>
        destruct (broadcastUserList_emitting id w') as [l' ->]
    end.
    exists l'. by rewrite log_emitting, emitting_app. }
  exists (friends_of dA2),
    (Emit s (update_user_list (presence_of (onlineUsers w) (friends_of dA2))) :: rest),
    (bool_decide (is_Some (online_get (onlineUsers w) B))).
  split; [|split; [|split]].
  - apply emitted_by_app. rewrite E. unfold w2, emitting; cbn.
    by rewrite <- app_assoc.
  - apply list_elem_of_here.
  - unfold presence_of. apply list_elem_of_fmap. by exists B.
  - rewrite bool_decide_eq_true. apply online_get_is_Some.
Qed.

(** ** Group member lists *)


#[local] Instance groups_ok_kept_preorder : PreOrder groups_ok_kept.
Proof. split; unfold groups_ok_kept; [by intros w|intros w1 w2 w3; eauto]. Qed.






(** ** What a payload can and cannot set *)

(** X18. A chat payload cannot choose its sender or its time. The
    document handed to the store has the socket's name as [from], the
    server's clock as [timestamp] and, [__proto__] apart, every other
    field as the payload gave it, whatever the payload carries under
    [from] and [timestamp]. The store keeps that document or nothing,
    and it keeps it, once, when the field names of the payload are
    plain. *)
Theorem chat_message_stamps_sender w s me data now :
  bound w s me → me ≠ "" →
  ∃ msg,
    messages (exec (chat_message s data now) w)
    = messages w ++ (if decide (messages_accept (messages w) msg)
                     then replicate (listings msg) msg else [])
    ∧ (plain_payload (fields data) →
         messages (exec (chat_message s data now) w) = messages w ++ [msg])
    ∧ msg_doc msg !! "from" = Some (VStr me)
    ∧ msg_doc msg !! "timestamp" = Some (VDate now)
    ∧ msg_doc msg !! "to" = Some (VStr (to data))
    ∧ msg_doc msg !! "__proto__" = None
    ∧ ∀ k, k ≠ "from" → k ≠ "timestamp" → k ≠ "to" → k ≠ "__proto__" →
        msg_doc msg !! k = fields data !! k.
Proof.
  intros Hb Hme.
  pose proof (chat_message_run w s me data now Hb Hme) as E. cbn zeta in E.
  exists (stored_copy (mkMessage (chat_doc data) me now)).
  split; [|split].
  - rewrite E. destruct (decide _); [done|]. by rewrite app_nil_r.
  - intros Hp.
    destruct (plain_message uid (messages w) data me now Hp) as (-> & _ & _).
    by apply chat_message_plain.
  - unfold msg_doc, stored_copy, chat_doc;
      cbn [msg_data msg_from msg_timestamp].
    split; [|split; [|split; [|split]]].
    + by rewrite lookup_insert_ne, lookup_insert_eq.
    + by rewrite lookup_insert_eq.
    + do 2 rewrite lookup_insert_ne by done.
      rewrite lookup_delete_ne by done. by rewrite lookup_insert_eq.
    + do 2 rewrite lookup_insert_ne by done. by rewrite lookup_delete_eq.
    + intros k Hf Ht Hto Hproto. do 2 rewrite lookup_insert_ne by done.
      rewrite lookup_delete_ne by done. by rewrite lookup_insert_ne.
Qed.

(** X19. [update_profile] with a payload of plain field names that
    names [username]: the unique index of line 22 refuses the write
    when the new value brings a key that the record did not have and
    that the index holds, and then the handler ends with the world as
    it was and no answer to the client; otherwise the whole payload is
    written and the record carries the new username, while the socket
    stays bound to the old name. A string is refused exactly when it is
    not the record's own name and some record has it. *)
Theorem update_profile_username w s me i d data v :
  bound w s me → me ≠ "" →
  find_user me (users w) = Some (i, d) →
  plain_payload data →
  data !! "username" = Some v →
  let w' := exec (update_profile s data) w in
  (if decide (username_taken (new_keys d (data ∪ d)) (users w))
   then w' = w
   else users w' = <[i := data ∪ d]> (users w)
        ∧ user_field (users w') i "username" = Some v
        ∧ bound w' s me)
  ∧ (∀ n, v = VStr n →
       (username_taken (new_keys d (data ∪ d)) (users w)
        ↔ ¬ field_is "username" n d ∧ is_Some (find_user n (users w)))).
Proof.
  intros Hb Hme Hu Hp Hv. cbn.
  pose proof Hu as (Hi & _)%list_find_Some.
  assert ((data ∪ d) !! "username" = Some v) as Hnew.
  { by apply lookup_union_Some_l. }
  split.
  - unfold exec, update_profile. rewrite (when_named_bound _ _ me) by done.
    unfold users_update. rewrite Hu, set_fields_plain by done.
    destruct (decide _) as [Ht|Hfree]; [done|]. cbn.
    split; [done|]. split; [|done].
    unfold user_field. rewrite list_lookup_insert_eq by by eapply lookup_lt_Some.
    done.
  - intros n ->. unfold new_keys. rewrite Hnew. cbn [index_keys].
    rewrite <- key_of_name.
    destruct (decide (Some (VStr n) ∈ index_keys (d !! "username"))) as [Hin|Hout].
    + rewrite filter_cons_False by (by intros ?). rewrite filter_nil.
      unfold username_taken. rewrite Exists_nil. by split; [|intros [? _]].
    + rewrite filter_cons_True by done. rewrite filter_nil.
      rewrite username_taken_found. by split; [|intros [_ ?]].
Qed.

(** ** A friends field that is not a list *)

(** X20. [$addToSet] fails on a friends field that is not a list, and
    the handler stops there. When the accepter's own field is such,
    [accept_request] changes nothing and sends nothing. When only the
    requester's is, the accepter's record has gained the requester,
    the requester's record is untouched, and no snapshot is sent: the
    friendship is left one-sided. *)
Theorem accept_request_stops_at_bad_field w s A B iA dA iB dB :
  bound w s A → A ≠ "" →
  find_user A (users w) = Some (iA, dA) →
  find_user B (users w) = Some (iB, dB) →
  let w' := exec (accept_request s B) w in
  (¬ friends_ok dA → w' = w)
  ∧ (friends_ok dA → ¬ friends_ok dB → iA ≠ iB →
       ∃ dA', addToSet "friends" B dA = Some dA'
         ∧ w' = log (Update Users) (with_users (λ l, <[iA := dA']> l) w)
         ∧ B ∈ friends_of dA'
         ∧ users w' !! iB = Some dB
         ∧ A ∉ friends_of dB).
Proof.
  tidy.
  intros Hb HA HfA HfB. cbn.
  pose proof HfA as (HiA & _)%list_find_Some.
  pose proof HfB as (HiB & _)%list_find_Some.
  split.
  - intros Hbad. unfold exec, accept_request.
    rewrite (when_named_bound _ _ A) by done. rewrite bind_run.
    unfold users_update at 1. rewrite HfA.
    unfold friends_ok in Hbad. unfold addToSet.
    by destruct (dA !! "friends") as [[]|].
  - intros HokA Hbad Hne.
    destruct (addToSet_friends_ok B dA HokA) as [dA' HdA'].
    pose proof (addToSet_friends _ _ _ HdA') as (HuA & _ & HinA & _).
    exists dA'. split; [done|].
    set (w1 := log (Update Users) (with_users (λ l, <[iA := dA']> l) w)).
    assert (find_user B (users w1) = Some (iB, dB)) as HfB1.
    { cbn. rewrite (find_user_insert_alike _ _ _ dA), HfB by done.
      cbn. by rewrite decide_False. }
    assert (addToSet "friends" A dB = None) as HdB.
    { unfold friends_ok in Hbad. unfold addToSet.
      by destruct (dB !! "friends") as [[]|]. }
    assert (exec (accept_request s B) w = w1) as ->.
    { unfold exec, accept_request.
      rewrite (when_named_bound _ _ A) by done. rewrite bind_run.
      rewrite (users_update_applied _ _ _ iA dA dA') by done. fold w1.
      rewrite bind_run. unfold users_update at 1. by rewrite HfB1, HdB. }
    split; [done|]. split; [done|]. split.
    + cbn. by rewrite list_lookup_insert_ne.
    + unfold friends_ok in Hbad. unfold friends_of.
      destruct (dB !! "friends") as [[]|]; try apply not_elem_of_nil. done.
Qed.

(** ** Snapshots and round trips *)

(** X21. [broadcastUserList] on a bound socket changes nothing but the
    trace. It sends nothing when the name has no record. When the
    friends field is a list it sends one entry per friend, in order,
    flagged online exactly when the read of [onlineUsers] under that
    name is truthy: the object has an entry for it, or the name is
    that of a property of [Object.prototype]. An empty or missing
    field gives the empty list; and a field that is neither makes
    [friends.map] throw, so nothing is sent. *)
Theorem friends_snapshot w s me :
  bound w s me → me ≠ "" →
  let w' := (broadcastUserList s w).2 in
  match find_user me (users w) with
  | None => w' = w
  | Some (_, d) =>
      match d !! "friends" with
      | Some (VArr l) =>
          w' = log (Emit s (update_user_list (presence_of (onlineUsers w) l))) w
          ∧ (presence_of (onlineUsers w) l).*1 = l
          ∧ ∀ f b, (f, b) ∈ presence_of (onlineUsers w) l →
              (b = true ↔ is_Some (onlineUsers w !! f) ∨ f ∈ object_prototype_names)
      | v => if truthy v then w' = w
             else w' = log (Emit s (update_user_list [])) w
      end
  end.
Proof.
  tidy.
  intros Hb Hme. cbn. unfold broadcastUserList.
  rewrite (when_named_bound _ _ me) by done.
  unfold users_findOne. unfold_M. cbn.
  destruct (find_user me (users w)) as [[i d]|]; cbn; [|done].
  destruct (d !! "friends") as [[|b|n|str|t|l]|] eqn:Hf; cbn; try done.
  - by destruct b.
  - by destruct (n =? 0).
  - by destruct (String.eqb str "").
  - split; [done|]. split.
    + unfold presence_of. rewrite <- list_fmap_compose. apply list_fmap_id.
    + intros f b (f' & [= -> ->] & _)%list_elem_of_fmap.
      rewrite bool_decide_eq_true. apply online_get_is_Some.
Qed.

(** X22. What a new user is sent: lines 72-96, run where the name is
    free and not empty, first insert into [db.users] and then emit
    [auth_success]; after these the registering socket is sent, once
    each, the empty friends list and the list of the groups that
    already have the name among their members, and nothing else is
    emitted. *)
Theorem register_trace w s u p e :
  find_user u (users w) = None → u ≠ "" →
  let c := mkCredentials u p e true in
  ∃ rest gs,
    emitted_by (register_user s c) w
    = Insert Users :: Emit s (auth_success u) :: rest
    ∧ rest ≡ₚ [Emit s (update_user_list []); Emit s (update_group_list gs)]
    ∧ gs ≡ₚ filter (λ g, u ∈ members g) (groups w).
Proof.
  intros Hfree Hu. cbn.
  exists [Emit s (update_user_list []);
          Emit s (update_group_list (member_groups u (groups w)))],
         (member_groups u (groups w)).
  split; [|split; [done|apply member_groups_perm]].
  set (c := mkCredentials u p e true).
  set (w1 := log (Insert Users) (with_users (λ l, l ++ [new_user c]) w)).
  set (w2 := log (Emit s (auth_success u))
               (with_online (online_set u s)
                  (with_sockets (λ m, <[s := Some u]> m) w1))).
  assert (broadcastUserList s w2
          = (Some (), log (Emit s (update_user_list (presence_of (onlineUsers w2) []))) w2))
    as Hpush.
  { apply (broadcastUserList_run w2 s u (length (users w)) (new_user c)).
    - unfold bound; cbn. by rewrite lookup_insert_eq.
    - done.
    - cbn. unfold find_user in *. rewrite list_find_app_r by done. cbn.
      rewrite decide_True; [done|]. unfold field_is.
      by change (new_user c !! "username") with (Some (VStr u)).
    - done. }
  apply emitted_by_app.
  rewrite register_user_run. change (username c) with u. rewrite Hfree. fold w1.
  unfold exec, bind_connection, groups_find_member. unfold_M. cbn.
  fold w2. rewrite Hpush. cbn. by rewrite <- !app_assoc.
Qed.

(** X23. A profile update can be read back: after [update_profile] with
    a payload of plain field names that leaves the username alone,
    [get_profile] for the caller's name, from any socket, reports the
    payload's non-empty bio and avatar and the payload's email. *)
Theorem profile_round_trip w s me i d data s2 :
  bound w s me → me ≠ "" →
  find_user me (users w) = Some (i, d) →
  plain_payload data →
  data !! "username" = None →
  let w' := exec (update_profile s data) w in
  ∃ p, emitted_by (get_profile s2 me) w' = [Emit s2 (profile_data p)]
    ∧ p_username p = d !! "username"
    ∧ (∀ v, data !! "bio" = Some v → truthy (Some v) = true → p_bio p = v)
    ∧ (∀ v, data !! "avatar" = Some v → truthy (Some v) = true → p_avatar p = v)
    ∧ (∀ v, data !! "email" = Some v → p_email p = Some v).
Proof.
  intros Hb Hme Hu Hp Hname. cbn.
  pose proof Hu as (Hi & _)%list_find_Some.
  assert ((data ∪ d) !! "username" = d !! "username") as Hsame
    by by rewrite lookup_union_r.
  assert (exec (update_profile s data) w
          = log (Update Users) (with_users (λ l, <[i := data ∪ d]> l) w)) as ->.
  { unfold exec, update_profile. rewrite (when_named_bound _ _ me) by done.
    rewrite (users_update_applied _ _ _ i d (data ∪ d)); try done.
    by apply set_fields_plain. }
  assert (find_user me (<[i := data ∪ d]> (users w)) = Some (i, data ∪ d)) as Hu'.
  { rewrite (find_user_insert_alike _ _ _ d), Hu by done.
    cbn. by rewrite decide_True. }
  eexists. split.
  - apply emitted_by_app. unfold exec, get_profile, users_findOne.
    unfold_M. cbn. rewrite Hu'. cbn. reflexivity.
  - cbn [p_username p_bio p_avatar p_email]. split; [done|].
    split; [|split].
    + intros v Hv Ht. change (truthy (Some v) = true) in Ht. unfold or_else.
      by rewrite (lookup_union_Some_l data d _ v Hv), Ht.
    + intros v Hv Ht. change (truthy (Some v) = true) in Ht. unfold or_else.
      by rewrite (lookup_union_Some_l data d _ v Hv), Ht.
    + intros v Hv. by rewrite (lookup_union_Some_l data d _ v Hv).
Qed.

End Properties.

(** * The properties at work on the scenarios *)

Lemma scenario_reachable evs :
  enabled_run Scenario.hash Scenario.compare Scenario.uid Scenario.set_paths evs init →
  reachable Scenario.hash Scenario.compare Scenario.uid Scenario.set_paths
    (Scenario.go evs).
Proof. intros Hen. apply reachable_run; [constructor|done]. Qed.

(** C1. alice sends [{to: "team", isGroup: true, body: "hi"}] to her
    group: the message is stored with [to] naming the group, and the
    group history that [get_history] then emits for "team" is empty,
    because line 175 filters on a field [toGroup] that no handler
    writes. *)
Theorem group_history_misses_group_messages :
  let w := Scenario.team_chat in
  let msg := mkMessage (chat_doc Scenario.hi_team) "alice" 1700000000000 in
  reachable Scenario.hash Scenario.compare Scenario.uid Scenario.set_paths w
  ∧ groups w = [mkGroup "team" "alice" ["alice"]]
  ∧ messages w = [msg]
  ∧ msg_doc msg !! "to" = Some (VStr "team")
  ∧ truthy (msg_doc msg !! "isGroup") = true
  ∧ bound w 1%nat "alice"
  ∧ emitted_by (get_history 1%nat "team" true) w = [Emit 1%nat (chat_history [])].
Proof.
  lazy zeta. split.
  - apply scenario_reachable. compute_done.
  - compute_done.
Qed.


(** alice on sockets 1 and 2, then socket 1 closes. *)
Lemma stale_disconnect_unregisters_witness :
  let w0 := Scenario.go [on_connection 1%nat; on_connection 2%nat] in
  let w1 := exec (authenticate Scenario.hash Scenario.compare Scenario.uid 1%nat
                    (Scenario.register "alice")) w0 in
  let w2 := exec (authenticate Scenario.hash Scenario.compare Scenario.uid 2%nat
                    (Scenario.login "alice")) w1 in
  let w3 := step Scenario.hash Scenario.compare Scenario.uid Scenario.set_paths
              (on_disconnect 1%nat) w2 in
  onlineUsers w2 !! "alice" = Some 2%nat
  ∧ onlineUsers w3 !! "alice" = None
  ∧ online_get (onlineUsers w3) "alice" = None
  ∧ sockets w3 !! 2%nat = Some (Some "alice").
Proof.
  apply (stale_disconnect_unregisters Scenario.hash Scenario.compare Scenario.uid
           Scenario.set_paths
           (Scenario.go [on_connection 1%nat; on_connection 2%nat]) 1%nat 2%nat
           (Scenario.register "alice") (Scenario.login "alice")).
  - lia.
  - reflexivity.
  - compute_done.
  - compute_done.
  - compute_done.
  - compute_done.
Defined.

(** Three names on sockets 1 and 2, socket 1 closing after socket 2 has
    authenticated. The empty username: the registry still has the
    entry, because [disconnect] takes the empty [socket.username] for
    no name at all. The username "constructor": the entry is deleted,
    but a read of [onlineUsers] under the name now yields the function
    that [Object.prototype] has there, so the name is listed as online.
    The username "__proto__": neither authentication made an entry. *)
Lemma disconnect_leaves_name_online :
  (let w := Scenario.empty_name_twice in
   reachable Scenario.hash Scenario.compare Scenario.uid Scenario.set_paths w
   ∧ Emit 1%nat (auth_success "") ∈ out w
   ∧ Emit 2%nat (auth_success "") ∈ out w
   ∧ sockets w !! 1%nat = None
   ∧ sockets w !! 2%nat = Some (Some "")
   ∧ onlineUsers w !! "" = Some 2%nat
   ∧ ¬ (onlineUsers w !! "" = None))
  ∧ (let w := Scenario.go [on_connection 1%nat;
                           on_authenticate 1%nat (Scenario.register "constructor");
                           on_connection 2%nat;
                           on_authenticate 2%nat (Scenario.login "constructor");
                           on_disconnect 1%nat] in
     reachable Scenario.hash Scenario.compare Scenario.uid Scenario.set_paths w
     ∧ Emit 1%nat (auth_success "constructor") ∈ out w
     ∧ Emit 2%nat (auth_success "constructor") ∈ out w
     ∧ sockets w !! 2%nat = Some (Some "constructor")
     ∧ onlineUsers w !! "constructor" = None
     ∧ online_get (onlineUsers w) "constructor" = Some inherited
     ∧ presence_of (onlineUsers w) ["constructor"] = [("constructor", true)])
  ∧ (let w := Scenario.go [on_connection 1%nat;
                           on_authenticate 1%nat (Scenario.register "__proto__");
                           on_connection 2%nat;
                           on_authenticate 2%nat (Scenario.login "__proto__")] in
     reachable Scenario.hash Scenario.compare Scenario.uid Scenario.set_paths w
     ∧ Emit 1%nat (auth_success "__proto__") ∈ out w
     ∧ Emit 2%nat (auth_success "__proto__") ∈ out w
     ∧ ¬ (onlineUsers w !! "__proto__" = Some 2%nat)).
Proof.
  lazy zeta. split; [|split].
  - split; [apply scenario_reachable; compute_done|compute_done].
  - split; [apply scenario_reachable; compute_done|compute_done].
  - split; [apply scenario_reachable; compute_done|compute_done].
Qed.

(** Three requests to an existing user without a registry entry that
    do not end in the not-connected error. alice, bound on socket 2 but
    with her entry deleted by the close of socket 1, sends a request to
    her own name: the answer is the cannot-add-yourself text. alice
    sends a request to the user "constructor", who has disconnected:
    the read of [onlineUsers] yields a function, the request is emitted
    to it and reaches no socket, and alice gets no error. A sender
    authenticated under the empty name gets no answer at all. *)
Lemma send_request_without_unreachable_error :
  (let w := Scenario.alice_stale in
   reachable Scenario.hash Scenario.compare Scenario.uid Scenario.set_paths w
   ∧ bound w 2%nat "alice"
   ∧ user_field (users w) 0 "username" = Some (VStr "alice")
   ∧ fst <$> find_user "alice" (users w) = Some 0%nat
   ∧ onlineUsers w !! "alice" = None
   ∧ emitted_by (send_request 2%nat "alice") w
     = [Emit 2%nat (error_msg text_cannot_add_self)]
   ∧ Emit 2%nat (error_msg text_not_connected)
       ∉ emitted_by (send_request 2%nat "alice") w)
  ∧ (let w := Scenario.go [on_connection 1%nat;
                           on_authenticate 1%nat (Scenario.register "alice");
                           on_connection 2%nat;
                           on_authenticate 2%nat (Scenario.register "constructor");
                           on_disconnect 2%nat] in
     reachable Scenario.hash Scenario.compare Scenario.uid Scenario.set_paths w
     ∧ bound w 1%nat "alice"
     ∧ fst <$> find_user "constructor" (users w) = Some 1%nat
     ∧ onlineUsers w !! "constructor" = None
     ∧ sockets w !! 2%nat = None
     ∧ emitted_by (send_request 1%nat "constructor") w
       = [EmitNowhere (receive_request "alice")]
     ∧ Emit 1%nat (error_msg text_not_connected)
         ∉ emitted_by (send_request 1%nat "constructor") w)
  ∧ (let w := Scenario.go [on_connection 1%nat;
                           on_authenticate 1%nat (Scenario.register "");
                           on_connection 2%nat;
                           on_authenticate 2%nat (Scenario.register "bob");
                           on_disconnect 2%nat] in
     reachable Scenario.hash Scenario.compare Scenario.uid Scenario.set_paths w
     ∧ Emit 1%nat (auth_success "") ∈ out w
     ∧ bound w 1%nat ""
     ∧ fst <$> find_user "bob" (users w) = Some 1%nat
     ∧ onlineUsers w !! "bob" = None
     ∧ emitted_by (send_request 1%nat "bob") w = []).
Proof.
  lazy zeta. split; [|split].
  - split; [apply scenario_reachable; compute_done|compute_done].
  - split; [apply scenario_reachable; compute_done|compute_done].
  - split; [apply scenario_reachable; compute_done|compute_done].
Qed.

(** alice sends a request to bob after bob has disconnected. *)
Lemma send_request_offline_target_witness :
  let w := Scenario.go [on_connection 1%nat;
                        on_authenticate 1%nat (Scenario.register "alice");
                        on_connection 2%nat;
                        on_authenticate 2%nat (Scenario.register "bob");
                        on_disconnect 2%nat] in
  online_get (onlineUsers w) "bob" = None
  ∧ exec (send_request 1%nat "bob") w = log (Emit 1%nat (error_msg text_not_connected)) w
  ∧ emitted_by (send_request 1%nat "bob") w = [Emit 1%nat (error_msg text_not_connected)].
Proof.
  lazy zeta. split; [compute_done|].
  apply (send_request_offline_target _ 1%nat "bob") with
    (me := "alice") (i := 1%nat)
    (d := new_user Scenario.hash (Scenario.register "bob")).
  - compute_done.
  - compute_done.
  - compute_done.
  - compute_done.
  - compute_done.
Defined.

(** Two messages of a registered sender that are not stored. alice,
    registered on socket 1, sends bob a payload with the field name
    "a.b": the store refuses the document, so nothing is stored and
    nothing is sent, the echo to alice included. A sender authenticated
    and registered under the empty name is not served at all. *)
Lemma chat_message_not_stored :
  (let w := Scenario.team in
   let data := mkChatData "bob" {["a.b" := VStr "hi"]} in
   let w' := exec (chat_message Scenario.uid 1%nat data 1700000000000) w in
   reachable Scenario.hash Scenario.compare Scenario.uid Scenario.set_paths w
   ∧ bound w 1%nat "alice"
   ∧ onlineUsers w !! "alice" = Some 1%nat
   ∧ onlineUsers w !! "bob" = Some 2%nat
   ∧ w' = w
   ∧ emitted_by (chat_message Scenario.uid 1%nat data 1700000000000) w = []
   ∧ ¬ (∃ msg, messages w' = messages w ++ [msg]))
  ∧ (let w := Scenario.go [on_connection 1%nat;
                           on_authenticate 1%nat (Scenario.register "");
                           on_connection 2%nat;
                           on_authenticate 2%nat (Scenario.register "bob")] in
     let w' := exec (chat_message Scenario.uid 1%nat Scenario.hi_bob 1700000000000) w in
     reachable Scenario.hash Scenario.compare Scenario.uid Scenario.set_paths w
     ∧ Emit 1%nat (auth_success "") ∈ out w
     ∧ bound w 1%nat ""
     ∧ onlineUsers w !! "" = Some 1%nat
     ∧ w' = w
     ∧ ¬ (∃ msg, messages w' = messages w ++ [msg])).
Proof.
  lazy zeta. split.
  - split; [apply scenario_reachable; compute_done|].
    do 5 (split; [compute_done|]).
    assert (messages (exec (chat_message Scenario.uid 1%nat
                              (mkChatData "bob" {["a.b" := VStr "hi"]}) 1700000000000)
                        Scenario.team) = []) as E by compute_done.
    assert (messages Scenario.team = []) as E0 by compute_done.
    rewrite E, E0. by intros [msg [=]].
  - split; [apply scenario_reachable; compute_done|].
    do 4 (split; [compute_done|]).
    assert (messages (exec (chat_message Scenario.uid 1%nat Scenario.hi_bob 1700000000000)
                        (Scenario.go [on_connection 1%nat;
                           on_authenticate 1%nat (Scenario.register "");
                           on_connection 2%nat;
                           on_authenticate 2%nat (Scenario.register "bob")])) = [])
      as E by compute_done.
    assert (messages (Scenario.go [on_connection 1%nat;
                           on_authenticate 1%nat (Scenario.register "");
                           on_connection 2%nat;
                           on_authenticate 2%nat (Scenario.register "bob")]) = [])
      as E0 by compute_done.
    rewrite E, E0. by intros [msg [=]].
Qed.

(** alice writes to bob while both are registered. *)
Lemma chat_message_persists_then_delivers_witness :
  let w := Scenario.team in
  let msg := mkMessage (chat_doc Scenario.hi_bob) "alice" 1700000000000 in
  messages (exec (chat_message Scenario.uid 1%nat Scenario.hi_bob 1700000000000) w)
  = messages w ++ [msg]
  ∧ emitted_by (chat_message Scenario.uid 1%nat Scenario.hi_bob 1700000000000) w
    = [Insert Messages; Emit 2%nat (new_msg msg); Emit 1%nat (new_msg msg)].
Proof.
  lazy zeta.
  destruct (chat_message_persists_then_delivers Scenario.uid Scenario.team 1%nat "alice"
              Scenario.hi_bob 1700000000000)
    as (_ & _ & _ & Hplain & Hacc).
  - compute_done.
  - compute_done.
  - destruct Hplain as (Hok & Hm); [compute_done|].
    destruct (Hacc Hok) as (_ & targets & Hout & Hdirect & _).
    split; [exact Hm|].
    destruct Hdirect as (Ht & _); [compute_done|].
    rewrite Hout, Ht. compute_done.
Defined.

(** The group "team" from its creation to the addition of bob. *)
Lemma group_admin_always_member_witness :
  Forall admin_is_member (groups Scenario.team)
  ∧ groups (exec (create_group Scenario.uid 1%nat "team") Scenario.alice_online)
    = groups Scenario.alice_online ++ [mkGroup "team" "alice" ["alice"]]
  ∧ groups_grow (groups Scenario.team)
      (groups (step Scenario.hash Scenario.compare Scenario.uid Scenario.set_paths
                 (on_add_member 1%nat "team" "bob") Scenario.team)).
Proof.
  destruct (group_admin_always_member Scenario.hash Scenario.compare Scenario.uid
              Scenario.set_paths)
    as (Hinv & Hcreate & _ & Hgrow).
  split; [|split].
  - apply Hinv. apply scenario_reachable. compute_done.
  - apply (Hcreate Scenario.alice_online 1%nat "alice" "team"); compute_done.
  - apply Hgrow.
Defined.

(** Two acceptances that do not make friends of both. alice accepts a
    request from a name that has no record: she gains the friend, and
    nobody has her as a friend. A user who authenticated under the
    empty name accepts bob's request: the guard of line 116 drops the
    event, and neither record gains a friend. *)
Lemma accept_request_not_mutual :
  (let w := Scenario.alice_online in
   let w' := exec (accept_request 1%nat "ghost") w in
   reachable Scenario.hash Scenario.compare Scenario.uid Scenario.set_paths w
   ∧ bound w 1%nat "alice"
   ∧ user_field (users w') 0 "friends" = Some (VArr ["ghost"])
   ∧ find_user "ghost" (users w') = None
   ∧ ¬ has_friend "ghost" "alice" (users w'))
  ∧ (let w := Scenario.go [on_connection 1%nat;
                           on_authenticate 1%nat (Scenario.register "");
                           on_connection 2%nat;
                           on_authenticate 2%nat (Scenario.register "bob")] in
     let w' := exec (accept_request 1%nat "bob") w in
     reachable Scenario.hash Scenario.compare Scenario.uid Scenario.set_paths w
     ∧ Emit 1%nat (auth_success "") ∈ out w
     ∧ bound w 1%nat ""
     ∧ w' = w
     ∧ user_field (users w') 0 "friends" = Some (VArr [])
     ∧ user_field (users w') 1 "friends" = Some (VArr [])).
Proof.
  lazy zeta.
  assert (find_user "ghost" (users (exec (accept_request 1%nat "ghost")
            Scenario.alice_online)) = None) as Hghost by compute_done.
  split; [split; [|split; [|split; [|split]]]|].
  - apply scenario_reachable. compute_done.
  - compute_done.
  - compute_done.
  - exact Hghost.
  - intros (i & d & Hd & _). rewrite Hghost in Hd. discriminate Hd.
  - split; [apply scenario_reachable; compute_done|compute_done].
Qed.

(** bob accepts alice's request; alice then edits her bio and bob
    leaves. *)
Lemma accept_request_befriends_witness :
  let w := Scenario.team in
  let w' := exec (accept_request 2%nat "alice") w in
  bound w 2%nat "bob"
  ∧ has_friend "bob" "alice" (users w')
  ∧ has_friend "alice" "bob" (users w')
  ∧ has_friend "alice" "bob"
      (users (run Scenario.hash Scenario.compare Scenario.uid Scenario.set_paths
                [on_update_profile 1%nat {["bio" := VStr "hello"]};
                 on_disconnect 2%nat] w')).
Proof.
  lazy zeta.
  destruct (accept_request_befriends Scenario.hash Scenario.compare Scenario.uid
              Scenario.set_paths Scenario.team 2%nat "bob" "alice"
              1%nat (new_user Scenario.hash (Scenario.register "bob")))
    as (Hab & _ & HB & _).
  - compute_done.
  - compute_done.
  - compute_done.
  - compute_done.
  - assert (find_user "alice" (users Scenario.team)
            = Some (0%nat, new_user Scenario.hash (Scenario.register "alice")))
      as Hu by compute_done.
    rewrite Hu in HB. destruct HB as (Hba & Hlater & _); [compute_done|].
    split; [compute_done|]. split; [exact Hab|]. split; [exact Hba|].
    apply Hlater. apply Forall_cons. split.
    + change (keeps_friends {["bio" := VStr "hello"]}). compute_done.
    + apply Forall_cons. split; [exact I|apply Forall_nil_2].
Defined.

(** alice sends [update_profile] with a [friends] field: her friends
    list is replaced. *)
Lemma update_profile_overwrites_friends :
  let w := Scenario.alice_online in
  let data : doc := {["friends" := VArr ["mallory"]]} in
  let w' := exec (update_profile Scenario.uid Scenario.set_paths 1%nat data) w in
  reachable Scenario.hash Scenario.compare Scenario.uid Scenario.set_paths w
  ∧ bound w 1%nat "alice"
  ∧ user_field (users w) 0 "friends" = Some (VArr [])
  ∧ user_field (users w') 0 "friends" = Some (VArr ["mallory"])
  ∧ ¬ (∀ k, k ∉ ["bio"; "avatar"; "email"] →
            user_field (users w') 0 k = user_field (users w) 0 k).
Proof.
  lazy zeta. split; [|split; [|split; [|split]]].
  - apply scenario_reachable. compute_done.
  - compute_done.
  - compute_done.
  - compute_done.
  - intros H. specialize (H "friends" ltac:(compute_done)).
    revert H. compute_done.
Qed.

(** alice sets her bio: the bio is written, and password digest,
    friends and username stay. *)
Lemma update_profile_sets_named_fields_witness :
  let w := Scenario.alice_online in
  let data : doc := {["bio" := VStr "hello"]} in
  let w' := exec (update_profile Scenario.uid Scenario.set_paths 1%nat data) w in
  user_field (users w') 0 "bio" = Some (VStr "hello")
  ∧ user_field (users w') 0 "password" = Some (VStr "secret")
  ∧ user_field (users w') 0 "friends" = Some (VArr [])
  ∧ user_field (users w') 0 "username" = Some (VStr "alice").
Proof.
  lazy zeta.
  destruct (update_profile_sets_named_fields Scenario.uid Scenario.set_paths
              Scenario.alice_online 1%nat {["bio" := VStr "hello"]})
    as (_ & _ & Hset).
  destruct (Hset "alice" 0%nat (new_user Scenario.hash (Scenario.register "alice")))
    as (Hfree & Hcase).
  - compute_done.
  - compute_done.
  - compute_done.
  - compute_done.
  - rewrite decide_False in Hcase by (apply Hfree; compute_done).
    destruct Hcase as (_ & Hnamed & Hkept).
    split; [apply Hnamed; compute_done|].
    rewrite !Hkept by compute_done. compute_done.
Defined.

(** alice's stored bio is the empty string; her profile is sent with
    the placeholder text in its place. *)
Lemma get_profile_placeholder_bio :
  let w := Scenario.alice_online in
  reachable Scenario.hash Scenario.compare Scenario.uid Scenario.set_paths w
  ∧ fst <$> find_user "alice" (users w) = Some 0%nat
  ∧ user_field (users w) 0 "bio" = Some (VStr "")
  ∧ emitted_by (get_profile 1%nat "alice") w
    = [Emit 1%nat (profile_data
         (mkProfile (Some (VStr "alice")) (VStr text_no_bio)
                    (VStr default_avatar) (Some (VStr ""))))]
  ∧ Some (VStr text_no_bio) ≠ user_field (users w) 0 "bio".
Proof.
  lazy zeta. split.
  - apply scenario_reachable. compute_done.
  - compute_done.
Qed.

(** A socket that never authenticated reads alice's profile. *)
Lemma get_profile_public_witness :
  let w := Scenario.go [on_connection 1%nat;
                        on_authenticate 1%nat (Scenario.register "alice");
                        on_update_profile 1%nat {["bio" := VStr "hello"]};
                        on_connection 2%nat] in
  sockets w !! 2%nat = Some None
  ∧ exec (get_profile 2%nat "alice") w
    = log (Emit 2%nat (profile_data
             (mkProfile (Some (VStr "alice")) (VStr "hello")
                        (VStr default_avatar) (Some (VStr "")))))
          w
  ∧ exec (get_profile 2%nat "nobody") w = w.
Proof.
  lazy zeta. set (w := Scenario.go _).
  pose proof (get_profile_public w 2%nat "alice") as Ha.
  pose proof (get_profile_public w 2%nat "nobody") as Hn.
  assert (find_user "alice" (users w)
          = Some (0%nat, {["bio" := VStr "hello"]}
                         ∪ new_user Scenario.hash (Scenario.register "alice")))
    as Hu by compute_done.
  assert (find_user "nobody" (users w) = None) as Hv by compute_done.
  rewrite Hu in Ha. rewrite Hv in Hn.
  destruct Ha as (Ea & _). destruct Hn as (En & _).
  split; [compute_done|]. split; [|exact En].
  rewrite Ea. compute_done.
Defined.

(** Two registrations that do not end as the name at the lookup
    suggests. The name "__proto__" is free; its registration creates
    the user, binds the socket and answers [auth_success], but line 92
    makes no entry in [onlineUsers], and what a read under the name
    yields is not the socket. The name "bob" is free when socket 1
    looks it up, so that the handler goes on to lines 72-96; socket 2
    registers "bob" before the insert of socket 1 runs, and socket 1
    ends with the registration-failed error, no user of its own and no
    name. *)
Lemma register_free_name_not_registered :
  (let w := Scenario.go [on_connection 1%nat] in
   let c := Scenario.register "__proto__" in
   let w' := exec (authenticate Scenario.hash Scenario.compare Scenario.uid 1%nat c) w in
   reachable Scenario.hash Scenario.compare Scenario.uid Scenario.set_paths w
   ∧ find_user "__proto__" (users w) = None
   ∧ users w' = [new_user Scenario.hash c]
   ∧ bound w' 1%nat "__proto__"
   ∧ Emit 1%nat (auth_success "__proto__") ∈ out w'
   ∧ onlineUsers w' = ∅
   ∧ online_get (onlineUsers w') "__proto__" ≠ Some (socket_id 1%nat))
  ∧ (let w := Scenario.go [on_connection 1%nat; on_connection 2%nat] in
     let c := Scenario.register "bob" in
     let w1 := step Scenario.hash Scenario.compare Scenario.uid Scenario.set_paths
                 (on_authenticate 2%nat c) w in
     let w' := exec (register_user Scenario.hash Scenario.uid 1%nat c) w1 in
     reachable Scenario.hash Scenario.compare Scenario.uid Scenario.set_paths w
     ∧ find_user "bob" (users w) = None
     ∧ exec (authenticate Scenario.hash Scenario.compare Scenario.uid 1%nat c) w
       = exec (register_user Scenario.hash Scenario.uid 1%nat c) w
     ∧ w' = log (Emit 1%nat (auth_error text_register_failed)) w1
     ∧ users w' = users w1
     ∧ sockets w' !! 1%nat = Some None
     ∧ onlineUsers w' !! "bob" = Some 2%nat).
Proof.
  lazy zeta. split.
  - split; [apply scenario_reachable; compute_done|compute_done].
  - split; [apply scenario_reachable; compute_done|compute_done].
Qed.

(** socket 1 and socket 2 register "bob" at the same time: the lookup
    of socket 1 finds the name free, and its insert runs either at once
    or after the registration of socket 2. *)
Lemma register_outcome_witness :
  let w := Scenario.go [on_connection 1%nat; on_connection 2%nat] in
  let c := Scenario.register "bob" in
  let w1 := step Scenario.hash Scenario.compare Scenario.uid Scenario.set_paths
              (on_authenticate 2%nat c) w in
  exec (authenticate Scenario.hash Scenario.compare Scenario.uid 1%nat c) w
  = exec (register_user Scenario.hash Scenario.uid 1%nat c) w
  ∧ onlineUsers (exec (register_user Scenario.hash Scenario.uid 1%nat c) w) !! "bob"
    = Some 1%nat
  ∧ exec (register_user Scenario.hash Scenario.uid 1%nat c) w1
    = log (Emit 1%nat (auth_error text_register_failed)) w1.
Proof.
  lazy zeta.
  pose proof (register_outcome Scenario.hash Scenario.compare Scenario.uid
                (Scenario.go [on_connection 1%nat; on_connection 2%nat])
                (Scenario.go [on_connection 1%nat; on_connection 2%nat])
                1%nat "bob" "secret" None) as Hnow.
  pose proof (register_outcome Scenario.hash Scenario.compare Scenario.uid
                (Scenario.go [on_connection 1%nat; on_connection 2%nat])
                (step Scenario.hash Scenario.compare Scenario.uid Scenario.set_paths
                   (on_authenticate 2%nat (Scenario.register "bob"))
                   (Scenario.go [on_connection 1%nat; on_connection 2%nat]))
                1%nat "bob" "secret" None) as Hlate.
  lazy zeta in Hnow, Hlate.
  assert (find_user "bob"
            (users (Scenario.go [on_connection 1%nat; on_connection 2%nat])) = None)
    as Hfree by compute_done.
  assert (find_user "bob"
            (users (step Scenario.hash Scenario.compare Scenario.uid Scenario.set_paths
                      (on_authenticate 2%nat (Scenario.register "bob"))
                      (Scenario.go [on_connection 1%nat; on_connection 2%nat])))
          = Some (0%nat, new_user Scenario.hash (Scenario.register "bob")))
    as Htaken by compute_done.
  rewrite Hfree in Hnow. rewrite Hfree, Htaken in Hlate.
  destruct Hnow as (Hlookup & _ & _ & _ & _ & _ & _ & Honline & _).
  destruct Hlate as (_ & Hfail).
  split; [exact Hlookup|]. split; [apply Honline; compute_done|exact Hfail].
Defined.

(** * The further properties at work *)

(** alice logs in on socket 2 with a wrong password. *)
Lemma login_outcome_witness :
  let w := Scenario.go [on_connection 1%nat;
                        on_authenticate 1%nat (Scenario.register "alice");
                        on_connection 2%nat] in
  exec (authenticate Scenario.hash Scenario.compare Scenario.uid 2%nat
          (mkCredentials "alice" "guess" None false)) w
  = log (Emit 2%nat (auth_error text_bad_credentials)) w.
Proof.
  lazy zeta.
  pose proof (login_outcome Scenario.hash Scenario.compare Scenario.uid
                (Scenario.go [on_connection 1%nat;
                              on_authenticate 1%nat (Scenario.register "alice");
                              on_connection 2%nat])
                2%nat "alice" "guess" None) as H.
  lazy zeta in H. destruct H as (_ & H).
  assert (find_user "alice"
            (users (Scenario.go [on_connection 1%nat;
                                 on_authenticate 1%nat (Scenario.register "alice");
                                 on_connection 2%nat]))
          = Some (0%nat, new_user Scenario.hash (Scenario.register "alice")))
    as Hu by compute_done.
  rewrite Hu in H.
  assert (new_user Scenario.hash (Scenario.register "alice") !! "password"
          = Some (VStr "secret")) as Hp by compute_done.
  rewrite Hp in H.
  assert (Scenario.compare "guess" "secret" = false) as Hc by compute_done.
  rewrite Hc in H. exact H.
Defined.

(** alice registers on socket 1 and logs in on socket 2. *)
Lemma register_then_login_witness :
  let w := Scenario.go [on_connection 1%nat; on_connection 2%nat] in
  let w1 := exec (register_user Scenario.hash Scenario.uid 1%nat
                    (mkCredentials "alice" "secret" None true)) w in
  let w2 := exec (authenticate Scenario.hash Scenario.compare Scenario.uid 2%nat
                    (mkCredentials "alice" "secret" None false)) w1 in
  find_user "alice" (users w) = None
  ∧ bound w2 2%nat "alice"
  ∧ onlineUsers w2 !! "alice" = Some 2%nat.
Proof.
  lazy zeta. split; [compute_done|].
  pose proof (register_then_login Scenario.hash Scenario.compare Scenario.uid
                (Scenario.go [on_connection 1%nat; on_connection 2%nat])
                1%nat 2%nat "alice" "secret" None "secret" None) as H.
  lazy zeta in H.
  assert (Scenario.compare "secret" (Scenario.hash "secret") = true) as Hc
    by compute_done.
  rewrite Hc in H. destruct H as (Hb & Ho & _); [compute_done|].
  split; [exact Hb|apply Ho; compute_done].
Defined.

(** A socket that has only connected sends a chat message. *)
Lemma unnamed_socket_ignored_witness :
  let w := Scenario.go [on_connection 1%nat] in
  sockets w !! 1%nat = Some None
  ∧ exec (chat_message Scenario.uid 1%nat Scenario.hi_bob 1700000000000) w = w
  ∧ exec (create_group Scenario.uid 1%nat "team") w = w.
Proof.
  lazy zeta. split; [compute_done|].
  destruct (unnamed_socket_ignored Scenario.hash Scenario.compare Scenario.uid
              Scenario.set_paths (Scenario.go [on_connection 1%nat]) 1%nat)
    as (_ & _ & _ & Hchat & Hgroup & _).
  - compute_done.
  - split; [apply Hchat|apply Hgroup].
Defined.



(** A socket that never authenticated names a group that does not
    exist: bob is sent his group list. *)
Lemma add_member_missing_group_witness :
  let w := Scenario.go [on_connection 1%nat;
                        on_authenticate 1%nat (Scenario.register "bob");
                        on_connection 2%nat] in
  sockets w !! 2%nat = Some None
  ∧ ∃ gs, exec (add_member Scenario.uid 2%nat "nowhere" "bob") w
          = emitting w [Emit 1%nat (update_group_list gs)]
        ∧ gs ≡ₚ [].
Proof.
  lazy zeta. split; [compute_done|].
  pose proof (add_member_missing_group Scenario.uid
                (Scenario.go [on_connection 1%nat;
                              on_authenticate 1%nat (Scenario.register "bob");
                              on_connection 2%nat])
                2%nat "nowhere" "bob") as H.
  lazy zeta in H.
  assert (mjoin (sockets (Scenario.go [on_connection 1%nat;
                              on_authenticate 1%nat (Scenario.register "bob");
                              on_connection 2%nat]) !! 2%nat) = None)
    as Hs by compute_done.
  assert (online_get (onlineUsers (Scenario.go [on_connection 1%nat;
                              on_authenticate 1%nat (Scenario.register "bob");
                              on_connection 2%nat])) "bob" = Some (socket_id 1%nat))
    as Hon by compute_done.
  rewrite Hs, Hon in H. destruct H as (gs & E & Hgs); [compute_done|].
  exists gs. split; [exact E|]. rewrite Hgs. compute_done.
Defined.

(** alice sends a request to bob, who is registered on socket 2. *)
Lemma send_request_outcome_witness :
  exec (send_request 1%nat "bob") Scenario.team
  = log (Emit 2%nat (receive_request "alice")) Scenario.team.
Proof.
  rewrite (send_request_outcome Scenario.team 1%nat "alice" "bob") by compute_done.
  compute_done.
Defined.

(** alice's socket registers a second name, carol, and closes. *)
Lemma rename_leaves_stale_entry_witness :
  let w := Scenario.alice_online in
  let c := Scenario.register "carol" in
  let w1 := exec (authenticate Scenario.hash Scenario.compare Scenario.uid 1%nat c) w in
  let w2 := step Scenario.hash Scenario.compare Scenario.uid Scenario.set_paths
              (on_disconnect 1%nat) w1 in
  onlineUsers w2 !! "alice" = Some 1%nat
  ∧ sockets w2 !! 1%nat = None.
Proof.
  lazy zeta.
  destruct (rename_leaves_stale_entry Scenario.hash Scenario.compare Scenario.uid
              Scenario.set_paths
              Scenario.alice_online 1%nat "alice" (Scenario.register "carol"))
    as (_ & Hstale & _ & Hclosed).
  - compute_done.
  - compute_done.
  - compute_done.
  - split; [exact Hstale|exact Hclosed].
Defined.

(** alice and bob after alice has written "hi" to bob. *)
Lemma get_history_sorted_witness :
  let w := step Scenario.hash Scenario.compare Scenario.uid Scenario.set_paths
             (on_chat_message 1%nat Scenario.hi_bob 1700000000000) Scenario.team in
  ∃ ms, emitted_by (get_history 2%nat "alice" false) w = [Emit 2%nat (chat_history ms)]
    ∧ Sorted by_timestamp ms
    ∧ ms ≡ₚ [mkMessage (chat_doc Scenario.hi_bob) "alice" 1700000000000].
Proof.
  lazy zeta.
  destruct (get_history_sorted
              (step Scenario.hash Scenario.compare Scenario.uid Scenario.set_paths
                 (on_chat_message 1%nat Scenario.hi_bob 1700000000000) Scenario.team)
              2%nat "bob" "alice" false)
    as (ms & Hout & Hsorted & Hperm).
  - compute_done.
  - compute_done.
  - exists ms. split; [exact Hout|]. split; [exact Hsorted|].
    rewrite Hperm. by compute_done.
Defined.

(** The same conversation read from both ends. *)
Lemma direct_history_shared_witness :
  let w := step Scenario.hash Scenario.compare Scenario.uid Scenario.set_paths
             (on_chat_message 1%nat Scenario.hi_bob 1700000000000) Scenario.team in
  ∃ ms, emitted_by (get_history 1%nat "bob" false) w = [Emit 1%nat (chat_history ms)]
      ∧ emitted_by (get_history 2%nat "alice" false) w = [Emit 2%nat (chat_history ms)].
Proof.
  lazy zeta.
  apply (direct_history_shared _ 1%nat 2%nat "alice" "bob"); compute_done.
Defined.

(** alice writes to carol, who has no record and no socket, and reads
    the message back. *)
Lemma sent_message_in_both_histories_witness :
  let data := mkChatData "carol" (<["body" := VStr "hi"]> ∅) in
  let w' := exec (chat_message Scenario.uid 1%nat data 1700000000000)
              Scenario.alice_online in
  ∃ ms, emitted_by (get_history 1%nat "carol" false) w' = [Emit 1%nat (chat_history ms)]
        ∧ mkMessage (chat_doc data) "alice" 1700000000000 ∈ ms.
Proof.
  lazy zeta.
  destruct (sent_message_in_both_histories Scenario.uid Scenario.alice_online 1%nat
              "alice" (mkChatData "carol" (<["body" := VStr "hi"]> ∅)) 1700000000000)
    as (Hown & _).
  - compute_done.
  - compute_done.
  - compute_done.
  - exact Hown.
Defined.

(** The users, groups and member lists of the "team" world. *)
Lemma usernames_unique_witness :
  NoDup (username_keys (users Scenario.team)).
Proof.
  apply (usernames_unique Scenario.hash Scenario.compare Scenario.uid
           Scenario.set_paths).
  apply scenario_reachable. compute_done.
Defined.

(** alice and bob each replace their username by the empty array, which
    has no key in the index: two records carry the same username. *)
Lemma empty_array_username_twice :
  let w := Scenario.go [on_connection 1%nat;
                        on_authenticate 1%nat (Scenario.register "alice");
                        on_connection 2%nat;
                        on_authenticate 2%nat (Scenario.register "bob");
                        on_update_profile 1%nat {["username" := VArr []]};
                        on_update_profile 2%nat {["username" := VArr []]}] in
  reachable Scenario.hash Scenario.compare Scenario.uid Scenario.set_paths w
  ∧ user_field (users w) 0 "username" = Some (VArr [])
  ∧ user_field (users w) 1 "username" = Some (VArr [])
  ∧ username_keys (users w) = [].
Proof.
  lazy zeta. split; [apply scenario_reachable; compute_done|compute_done].
Qed.

(** bob's [create_group] for "team" has passed its lookup before alice's
    group was stored: the collection ends with two groups of that
    name. *)
Lemma group_name_checked_once_witness :
  groups (exec (insert_group Scenario.uid 2%nat "bob" "team") Scenario.team)
  = [mkGroup "team" "alice" ["alice"]; mkGroup "team" "bob" ["bob"]]
  ∧ ¬ NoDup (name <$> groups (exec (insert_group Scenario.uid 2%nat "bob" "team")
                                Scenario.team)).
Proof.
  destruct (group_name_checked_once Scenario.hash Scenario.compare Scenario.uid
              Scenario.set_paths Scenario.team 2%nat "bob" "team")
    as (Hg & Hnames & _).
  split.
  - rewrite Hg. compute_done.
  - intros Hnd. apply Hnames in Hnd; [|compute_done].
    revert Hnd. compute_done.
Defined.


(** A profile update and a disconnect after a message was stored. *)
Lemma store_only_grows_witness :
  let w := step Scenario.hash Scenario.compare Scenario.uid Scenario.set_paths
             (on_chat_message 1%nat Scenario.hi_bob 1700000000000) Scenario.team in
  let evs := [on_update_profile 1%nat {["bio" := VStr "hello"]};
              on_disconnect 2%nat] in
  messages (run Scenario.hash Scenario.compare Scenario.uid Scenario.set_paths evs w)
  = messages w.
Proof.
  lazy zeta.
  apply (store_only_grows Scenario.hash Scenario.compare Scenario.uid
           Scenario.set_paths).
  apply Forall_cons. split; [by intros []|].
  apply Forall_cons. split; [by intros []|]. apply Forall_nil_2.
Defined.

(** Two uploads of "cat.png" in the same millisecond. *)
Lemma upload_names_apart_witness :
  let f := mkUploadedFile "cat.png" "image/png" in
  upload 1700000000000 (Some f)
  = upload_done "/uploads/1700000000000-cat.png" "/uploads/1700000000000-cat.png"
      "image/png"
  ∧ (1700000000000%N = 1700000000000%N ∧ originalname f = originalname f).
Proof.
  lazy zeta. split; [compute_done|].
  destruct upload_names_apart as (_ & _ & Hsame).
  destruct (Hsame 1700000000000%N (mkUploadedFile "cat.png" "image/png")
              1700000000000%N (mkUploadedFile "cat.png" "image/png")
              "/uploads/1700000000000-cat.png"
              "/uploads/1700000000000-cat.png" "image/png"
              "/uploads/1700000000000-cat.png" "image/png")
    as (_ & _ & Hn & Ho).
  - compute_done.
  - compute_done.
  - split; [exact Hn|exact Ho].
Defined.

(** bob accepts alice's request while alice is registered on socket 1. *)
Lemma accept_request_pushes_snapshot_witness :
  ∃ l rest,
    emitted_by (accept_request 2%nat "alice") Scenario.team
    = Update Users :: Update Users :: rest
    ∧ Emit 2%nat (update_user_list (presence_of (onlineUsers Scenario.team) l)) ∈ rest
    ∧ ("alice", true) ∈ presence_of (onlineUsers Scenario.team) l.
Proof.
  destruct (accept_request_pushes_snapshot Scenario.team 2%nat "bob" "alice"
              1%nat (new_user Scenario.hash (Scenario.register "bob"))
              0%nat (new_user Scenario.hash (Scenario.register "alice")))
    as (l & rest & flag & Hout & Hsent & Hin & Hflag).
  - compute_done.
  - compute_done.
  - compute_done.
  - compute_done.
  - compute_done.
  - compute_done.
  - exists l, rest. split; [exact Hout|]. split; [exact Hsent|].
    assert (flag = true) as ->; [|exact Hin].
    apply Hflag. left. compute_done.
Defined.

(** alice sends a message that claims to come from mallory. *)
Lemma chat_message_stamps_sender_witness :
  let data := mkChatData "bob" (<["from" := VStr "mallory"]> ∅) in
  ∃ msg, messages (exec (chat_message Scenario.uid 1%nat data 1700000000000)
                     Scenario.team) = [msg]
    ∧ msg_doc msg !! "from" = Some (VStr "alice").
Proof.
  lazy zeta.
  destruct (chat_message_stamps_sender Scenario.uid Scenario.team 1%nat "alice"
              (mkChatData "bob" (<["from" := VStr "mallory"]> ∅)) 1700000000000)
    as (msg & _ & Hm & Hfrom & _).
  - compute_done.
  - compute_done.
  - exists msg. split; [|exact Hfrom]. rewrite Hm by compute_done.
    assert (messages Scenario.team = []) as Hnone by compute_done.
    by rewrite Hnone.
Defined.

(** alice asks for bob's username. *)
Lemma update_profile_username_witness :
  exec (update_profile Scenario.uid Scenario.set_paths 1%nat
          {["username" := VStr "bob"]}) Scenario.team
  = Scenario.team.
Proof.
  destruct (update_profile_username Scenario.uid Scenario.set_paths
              Scenario.team 1%nat "alice" 0%nat
              (new_user Scenario.hash (Scenario.register "alice"))
              {["username" := VStr "bob"]} (VStr "bob")) as (H & Htaken).
  - compute_done.
  - compute_done.
  - compute_done.
  - compute_done.
  - compute_done.
  - rewrite decide_True in H; [exact H|].
    apply (Htaken "bob"); [done|]. split; compute_done.
Defined.

(** bob overwrites his friends field with a string; alice then accepts
    his request. *)
Lemma accept_request_stops_at_bad_field_witness :
  let w := Scenario.go [on_connection 1%nat;
                        on_authenticate 1%nat (Scenario.register "alice");
                        on_connection 2%nat;
                        on_authenticate 2%nat (Scenario.register "bob");
                        on_update_profile 2%nat {["friends" := VStr "none"]}] in
  let w' := exec (accept_request 1%nat "bob") w in
  user_field (users w) 1 "friends" = Some (VStr "none")
  ∧ ∃ dA', w' = log (Update Users) (with_users (λ l, <[0%nat := dA']> l) w)
           ∧ "bob" ∈ friends_of dA'
           ∧ users w' !! 1%nat
             = Some ({["friends" := VStr "none"]}
                     ∪ new_user Scenario.hash (Scenario.register "bob")).
Proof.
  lazy zeta. split; [compute_done|].
  destruct (accept_request_stops_at_bad_field
              (Scenario.go [on_connection 1%nat;
                            on_authenticate 1%nat (Scenario.register "alice");
                            on_connection 2%nat;
                            on_authenticate 2%nat (Scenario.register "bob");
                            on_update_profile 2%nat {["friends" := VStr "none"]}])
              1%nat "alice" "bob"
              0%nat (new_user Scenario.hash (Scenario.register "alice"))
              1%nat ({["friends" := VStr "none"]}
                     ∪ new_user Scenario.hash (Scenario.register "bob")))
    as (_ & Hhalf).
  - compute_done.
  - compute_done.
  - compute_done.
  - compute_done.
  - destruct Hhalf as (dA' & _ & E & Hin & Hbob & _).
    + compute_done.
    + intros Hok. vm_compute in Hok. exact Hok.
    + compute_done.
    + exists dA'. split; [exact E|]. split; [exact Hin|exact Hbob].
Defined.

(** bob's snapshot once alice is his friend. *)
Lemma friends_snapshot_witness :
  let w := exec (accept_request 2%nat "alice") Scenario.team in
  (broadcastUserList 2%nat w).2
  = log (Emit 2%nat (update_user_list [("alice", true)])) w.
Proof.
  lazy zeta.
  pose proof (friends_snapshot (exec (accept_request 2%nat "alice") Scenario.team)
                2%nat "bob") as H.
  lazy zeta in H.
  assert (find_user "bob" (users (exec (accept_request 2%nat "alice") Scenario.team))
          = Some (1%nat, <["friends" := VArr ["alice"]]>
                           (new_user Scenario.hash (Scenario.register "bob"))))
    as Hu by compute_done.
  rewrite Hu in H.
  assert ((<["friends" := VArr ["alice"]]>
             (new_user Scenario.hash (Scenario.register "bob"))) !! "friends"
          = Some (VArr ["alice"])) as Hf by compute_done.
  rewrite Hf in H. destruct H as (E & _); [compute_done..|].
  rewrite E. compute_done.
Defined.

(** bob registers after alice has put his name into "team". *)
Lemma register_trace_witness :
  let w := Scenario.go [on_connection 1%nat;
                        on_authenticate 1%nat (Scenario.register "alice");
                        on_create_group 1%nat "team";
                        on_add_member 1%nat "team" "bob";
                        on_connection 2%nat] in
  ∃ rest gs,
    emitted_by (register_user Scenario.hash Scenario.uid 2%nat
                  (mkCredentials "bob" "secret" None true)) w
    = Insert Users :: Emit 2%nat (auth_success "bob") :: rest
    ∧ rest ≡ₚ [Emit 2%nat (update_user_list []); Emit 2%nat (update_group_list gs)]
    ∧ gs ≡ₚ [mkGroup "team" "alice" ["alice"; "bob"]].
Proof.
  lazy zeta.
  destruct (register_trace Scenario.hash Scenario.uid
              (Scenario.go [on_connection 1%nat;
                            on_authenticate 1%nat (Scenario.register "alice");
                            on_create_group 1%nat "team";
                            on_add_member 1%nat "team" "bob";
                            on_connection 2%nat])
              2%nat "bob" "secret" None)
    as (rest & gs & Hout & Hrest & Hgs).
  - compute_done.
  - compute_done.
  - exists rest, gs. split; [exact Hout|]. split; [exact Hrest|]. rewrite Hgs.
    assert (filter (λ g, "bob" ∈ members g)
              (groups (Scenario.go [on_connection 1%nat;
                            on_authenticate 1%nat (Scenario.register "alice");
                            on_create_group 1%nat "team";
                            on_add_member 1%nat "team" "bob";
                            on_connection 2%nat]))
            = [mkGroup "team" "alice" ["alice"; "bob"]]) as Hg by compute_done.
    by rewrite Hg.
Defined.

(** alice sets her bio and reads her profile from another socket. *)
Lemma profile_round_trip_witness :
  let w' := exec (update_profile Scenario.uid Scenario.set_paths 1%nat
                    {["bio" := VStr "hello"]}) Scenario.team in
  ∃ p, emitted_by (get_profile 2%nat "alice") w' = [Emit 2%nat (profile_data p)]
       ∧ p_bio p = VStr "hello".
Proof.
  lazy zeta.
  destruct (profile_round_trip Scenario.uid Scenario.set_paths Scenario.team 1%nat
              "alice" 0%nat (new_user Scenario.hash (Scenario.register "alice"))
              {["bio" := VStr "hello"]} 2%nat)
    as (p & Hout & _ & Hbio & _).
  - compute_done.
  - compute_done.
  - compute_done.
  - compute_done.
  - compute_done.
  - exists p. split; [exact Hout|]. apply Hbio; compute_done.
Defined.
